(** * A shallow embedding of the Lox tree-walking interpreter

    Sources: [src/lox/runtime.py] (runtime values, operators, callables,
    classes, instances) and [src/lox/ast.py] (the node classes with their
    [eval] and [validate_self] methods).

    Python objects live in a store and are named by their address; the
    interpreter threads the store and the text written on standard output. *)

From Stdlib Require Import Ascii String ZArith Lia.
From stdpp Require Import base strings gmap list pretty.

Open Scope string_scope.
Open Scope list_scope.
Open Scope Z_scope.

(** ** Python floats and their [str]

    A Lox Number is a Python [float].  The only thing the interpreter ever
    asks of the host about a float, besides arithmetic, is its [str]; CPython
    computes it from the shortest decimal digit string that reads back as the
    same float ([_Py_dg_dtoa], mode 0).  A finite float is therefore carried
    as that digit string: sign, digits [d1 .. dn] and the position [decpt]
    of the decimal point, the value being [0.d1..dn * 10^decpt].  Zero is the
    digit string [0] with [decpt = 1]. *)

Inductive PyFloat : Type :=
| FNan
| FInf (neg : bool)
| FFin (neg : bool) (digits : list nat) (decpt : Z).

Global Instance PyFloat_eq_dec : EqDecision PyFloat.
Proof. solve_decision. Defined.

Definition digits_value (ds : list nat) : Z :=
  foldl (fun acc d => 10 * acc + Z.of_nat d) 0 ds.

(** Digit strings that [_Py_dg_dtoa] can return: at least one digit, every
    digit below ten, no trailing zero (the single digit [0] apart). *)
Definition wf_digits (ds : list nat) : Prop :=
  Forall (fun d => (d < 10)%nat) ds /\
  (ds = [0%nat] \/ exists ds' d, ds = ds' ++ [d] /\ d <> 0%nat).

Definition wf_float (x : PyFloat) : Prop :=
  match x with
  | FFin _ ds decpt => wf_digits ds /\ (ds = [0%nat] -> decpt = 1)
  | _ => True
  end.

(** [float.is_integer]: false for nan and the infinities, otherwise whether
    [0.d1..dn * 10^decpt] is a whole number. *)
Definition float_is_integer (x : PyFloat) : bool :=
  match x with
  | FFin _ ds decpt =>
      (digits_value ds * 10 ^ Z.max 0 decpt) mod 10 ^ Z.of_nat (length ds) =? 0
  | _ => false
  end.

Definition float_is_zero (x : PyFloat) : bool :=
  match x with
  | FFin _ ds _ => digits_value ds =? 0
  | _ => false
  end.

(** Python's [==] on floats: nan equals nothing, the two zeros are equal. *)
Definition float_eq (x y : PyFloat) : bool :=
  match x, y with
  | FNan, _ | _, FNan => false
  | FInf n1, FInf n2 => bool_decide (n1 = n2)
  | FFin n1 d1 p1, FFin n2 d2 p2 =>
      (float_is_zero x && float_is_zero y)
      || bool_decide (n1 = n2 /\ d1 = d2 /\ p1 = p2)
  | _, _ => false
  end.

Definition digit_char (d : nat) : ascii := ascii_of_nat (48 + d).

Fixpoint digits_string (ds : list nat) : string :=
  match ds with
  | [] => ""
  | d :: ds' => String (digit_char d) (digits_string ds')
  end.

Definition zeros (n : Z) : string := digits_string (replicate (Z.to_nat n) 0%nat).

(** [sprintf(p, "%+.02d", exp)]: always a sign, at least two digits. *)
Definition exp_string (e : Z) : string :=
  (if e <? 0 then "-" else "+")
  +:+ (if Z.abs e <? 10 then "0" else "") +:+ pretty (Z.abs e).

(** [if (p[-1] == '.') p--;] *)
Fixpoint drop_trailing_dot (s : string) : string :=
  match s with
  | "" => ""
  | String c "" => if Ascii.eqb c "." then "" else s
  | String c s' => String c (drop_trailing_dot s')
  end.

(** [repr] of a float, that is [PyOS_double_to_string(x, 'r', 0,
    Py_DTSF_ADD_DOT_0)], following [format_float_short] of CPython's
    [pystrtod.c] step by step. *)
Definition float_repr (x : PyFloat) : string :=
  match x with
  | FNan => "nan"
  | FInf neg => if neg then "-inf" else "inf"
  | FFin neg digits decpt0 =>
      let digits_len := Z.of_nat (length digits) in
      let use_exp := (decpt0 <=? -4) || (16 <? decpt0) in
      let exp := decpt0 - 1 in
      let decpt := if use_exp then 1 else decpt0 in
      let vdigits_start := if decpt <=? 0 then decpt - 1 else 0 in
      let vdigits_end :=
        if negb use_exp
        then (if decpt <? digits_len then digits_len else decpt + 1)
        else (if decpt <? digits_len then digits_len else decpt) in
      let sign := if neg then "-" else "" in
      let left :=
        if decpt <=? 0
        then zeros (decpt - vdigits_start) +:+ "." +:+ zeros (0 - decpt)
        else zeros (0 - vdigits_start) in
      let middle :=
        if (0 <? decpt) && (decpt <=? digits_len)
        then digits_string (take (Z.to_nat decpt) digits) +:+ "."
             +:+ digits_string (drop (Z.to_nat decpt) digits)
        else digits_string digits in
      let right :=
        if digits_len <? decpt
        then zeros (decpt - digits_len) +:+ "." +:+ zeros (vdigits_end - decpt)
        else zeros (vdigits_end - digits_len) in
      let body := drop_trailing_dot (sign +:+ left +:+ middle +:+ right) in
      if use_exp then body +:+ "e" +:+ exp_string exp else body
  end.

(** [str.removesuffix]. *)
Fixpoint strip_suffix (s suffix : string) : option string :=
  if String.eqb s suffix then Some ""
  else match s with
       | "" => None
       | String c s' => String c <$> strip_suffix s' suffix
       end.

Definition removesuffix (s suffix : string) : string :=
  default s (strip_suffix s suffix).

Fixpoint count_char (c : ascii) (s : string) : nat :=
  match s with
  | "" => 0%nat
  | String c' s' => ((if Ascii.eqb c c' then 1 else 0) + count_char c s')%nat
  end.

(** ** Runtime values

    [None], [bool], [float] and [str] are carried by value.  A [LoxFunction],
    [LoxInitFunction], [LoxClass] or [LoxInstance] is a Python object: the
    value is its address in the store, so that two references to one
    instance see each other's field writes and [is] can be told from [==]. *)

Definition addr := nat.

Inductive Value : Type :=
| VNil
| VBool (b : bool)
| VNum (x : PyFloat)
| VStr (s : string)
| VObj (a : addr).

Global Instance Value_eq_dec : EqDecision Value.
Proof. solve_decision. Defined.

(** ** The syntax tree ([ast.py])

    [BinOp.op] and [UnaryOp.op] hold one of the functions that [runtime.py]
    exports for the transformer; the node stores which one. *)

Inductive BinOperator : Type :=
| op_add | op_sub | op_mul | op_truediv
| op_eq | op_ne | op_lt | op_le | op_gt | op_ge.

Inductive UnaryOperator : Type := op_neg | op_not.

Global Instance BinOperator_eq_dec : EqDecision BinOperator.
Proof. solve_decision. Defined.
Global Instance UnaryOperator_eq_dec : EqDecision UnaryOperator.
Proof. solve_decision. Defined.

Local Unset Elimination Schemes.

Inductive Expr : Type :=
| BinOp (left right : Expr) (op : BinOperator)
| Var (name : string)
| Literal (value : Value)
| And (left right : Expr)
| Or (left right : Expr)
| UnaryOp (operand : Expr) (op : UnaryOperator)
| Call (callee : Expr) (params : list Expr)
| This
| Super (name : string)
| Assign (name : string) (value : Expr)
| Getattr (obj : Expr) (name : string)
| Setattr (obj : Expr) (name : string) (value : Expr).

(** [Function.params] is a list of [Var] nodes of which only the names are
    used; [Function.body] is a [Block], kept as its statements; [Class.base]
    is an optional [Var], kept as its name. *)
Inductive Stmt : Type :=
| ExprStmt (expr : Expr)
| Print (expr : Expr)
| Return (value : option Expr)
| VarDef (name : string) (initializer : Expr)
| If (condition : Expr) (then_branch else_branch : Stmt)
| While (condition : Expr) (body : Stmt)
| Block (stmts : list Stmt)
| FunctionDecl (f : Function)
| Class (name : string) (methods : list Function) (base : option string)
with Function : Type :=
| MkFunction (name : string) (params : list string) (body : list Stmt).

Local Set Elimination Schemes.

Definition Program := list Stmt.

Definition fn_name (f : Function) : string := let 'MkFunction n _ _ := f in n.
Definition fn_params (f : Function) : list string := let 'MkFunction _ p _ := f in p.
Definition fn_body (f : Function) : list Stmt := let 'MkFunction _ _ b := f in b.

(** ** The store *)

Inductive Obj : Type :=
| LoxFunction (name : string) (params : list string) (body : list Stmt) (ctx : addr)
| LoxInitFunction (name : string) (params : list string) (body : list Stmt)
                  (ctx : addr) (instance : addr)
| LoxClass (name : string) (methods : gmap string addr) (base : option addr)
| LoxInstance (klass : addr) (fields : gmap string Value)
| Ctx (vars : gmap string Value) (parent : option addr).

Record State : Type := MkState { heap : list Obj; stdout : list string }.

Definition set_heap (h : list Obj) (st : State) : State :=
  {| heap := h; stdout := stdout st |}.

(** Creating a Python object: it gets the next free address. *)
Definition alloc (o : Obj) (st : State) : addr * State :=
  (length (heap st), set_heap (heap st ++ [o]) st).

Definition store (a : addr) (o : Obj) (st : State) : State :=
  set_heap (<[a := o]> (heap st)) st.

(** ** Exceptions and results *)

Inductive Exc : Type :=
| LoxError (msg : string)
| TypeError (msg : string)
| NameError (msg : string)
| AttributeError (msg : string)
| HostAttributeError
| HostTypeError
| KeyError (key : string)
| LoxReturn (value : Value).

(** [HostAttributeError] is an [AttributeError] that Python itself raises,
    with a message of its own, and [HostTypeError] a [TypeError] that Python
    itself raises. *)
Definition is_AttributeError (e : Exc) : bool :=
  match e with AttributeError _ | HostAttributeError => true | _ => false end.

(** Where the embedding stops: the recursion bound is used up; the program
    got hold of a Python object that is no Lox value (the [fields] dict of
    an instance, the [params], [body] or [ctx] of a function, a bound
    method of a [str], ...), whose behaviour is the host's; or the store
    holds no object of the expected class at an address.  In the code the
    evaluation goes on with such an object, and can do with it whatever
    Python allows ([f.body.eval(f.ctx)], [f.params.clear()]); the embedding
    does not follow it, and what is proved of evaluations is proved of
    those that end with a value or with an error, not of these. *)
Inductive Why : Type := OutOfFuel | HostObject | BadStore.

Inductive Res (A : Type) : Type :=
| Ok (a : A) (st : State)
| Raise (e : Exc) (st : State)
| Undefined (w : Why).
Arguments Ok {A} a st.
Arguments Raise {A} e st.
Arguments Undefined {A} w.

Definition bind {A B : Type} (m : Res A) (k : A -> State -> Res B) : Res B :=
  match m with
  | Ok a st => k a st
  | Raise e st => Raise e st
  | Undefined w => Undefined w
  end.

Notation "'let*' ( x , st ) := m 'in' k" :=
  (bind m (fun x st => k))
  (at level 10, x name, st name, m at level 100, k at level 200,
   format "'[v' 'let*'  ( x ,  st )  :=  m  'in' '/' k ']'").

(** ** Python classes of the values *)

Inductive PyType : Type :=
| TNone | TBool | TFloat | TStr
| TLoxFunction | TLoxInitFunction | TLoxClass | TLoxInstance | TCtx.

Global Instance PyType_eq_dec : EqDecision PyType.
Proof. solve_decision. Defined.

Definition type_of_obj (o : Obj) : PyType :=
  match o with
  | LoxFunction _ _ _ _ => TLoxFunction
  | LoxInitFunction _ _ _ _ _ => TLoxInitFunction
  | LoxClass _ _ _ => TLoxClass
  | LoxInstance _ _ => TLoxInstance
  | Ctx _ _ => TCtx
  end.

Definition type_of (h : list Obj) (v : Value) : option PyType :=
  match v with
  | VNil => Some TNone
  | VBool _ => Some TBool
  | VNum _ => Some TFloat
  | VStr _ => Some TStr
  | VObj a => type_of_obj <$> h !! a
  end.

(** [isinstance(v, LoxFunction)]: [LoxInitFunction] is a subclass. *)
Definition is_LoxFunction (t : PyType) : bool :=
  match t with TLoxFunction | TLoxInitFunction => true | _ => false end.

(** [callable(v)]: the classes that define [__call__]. *)
Definition callable (t : PyType) : bool :=
  match t with TLoxFunction | TLoxInitFunction | TLoxClass => true | _ => false end.

(** ** The environment ([ctx.py])

    Modelled from the spec: the class [Ctx] of [ctx.py], of which the sources
    only show the uses ([ctx[name]], [ctx.assign], [ctx.var_def],
    [ctx.push]).  The spec describes a singly-linked chain of frames, each a
    mapping from names to values: lookup and assignment walk the chain from
    the innermost frame outwards and fail on an unbound name, definition
    writes the current frame, [push] makes a child frame and leaves the
    parent as it is.  A failed lookup is the [KeyError] that [Var.eval]
    catches; a failed assignment is taken to be the same exception. *)

Fixpoint ctx_find (n : nat) (h : list Obj) (c : addr) (name : string) : option addr :=
  match n with
  | O => None
  | S n' =>
      match h !! c with
      | Some (Ctx vars parent) =>
          match vars !! name with
          | Some _ => Some c
          | None => match parent with
                    | Some p => ctx_find n' h p name
                    | None => None
                    end
          end
      | _ => None
      end
  end.

Definition ctx_getitem (h : list Obj) (c : addr) (name : string) : option Value :=
  match ctx_find (length h) h c name with
  | Some f => match h !! f with
              | Some (Ctx vars _) => vars !! name
              | _ => None
              end
  | None => None
  end.

Definition ctx_assign (c : addr) (name : string) (v : Value) (st : State) : Res unit :=
  match ctx_find (length (heap st)) (heap st) c name with
  | Some f => match heap st !! f with
              | Some (Ctx vars parent) => Ok tt (store f (Ctx (<[name := v]> vars) parent) st)
              | _ => Undefined BadStore
              end
  | None => Raise (KeyError name) st
  end.

Definition ctx_var_def (c : addr) (name : string) (v : Value) (st : State) : Res unit :=
  match heap st !! c with
  | Some (Ctx vars parent) => Ok tt (store c (Ctx (<[name := v]> vars) parent) st)
  | _ => Undefined BadStore
  end.

Definition ctx_push (c : addr) (bindings : gmap string Value) (st : State) : addr * State :=
  alloc (Ctx bindings (Some c)) st.

(** ** [runtime.py]: classes, instances, functions *)

(** [LoxClass.get_method]: the class's own [methods], then the base chain;
    [LoxError] when the chain ends.  A chain is at most as long as the store
    (a base class exists before the class that extends it). *)
Fixpoint get_method_from (n : nat) (h : list Obj) (c : addr) (name : string)
  : option (string + addr) :=
  match n with
  | O => None
  | S n' =>
      match h !! c with
      | Some (LoxClass cname methods base) =>
          match methods !! name with
          | Some f => Some (inr f)
          | None =>
              match base with
              | Some b => get_method_from n' h b name
              | None => Some (inl ("Método '" +:+ name +:+ "' não encontrado na classe '"
                                   +:+ cname +:+ "'"))
              end
          end
      | _ => None
      end
  end.

Definition get_method (c : addr) (name : string) (st : State) : Res addr :=
  match get_method_from (length (heap st)) (heap st) c name with
  | Some (inr f) => Ok f st
  | Some (inl msg) => Raise (LoxError msg) st
  | None => Undefined BadStore
  end.

(** [LoxFunction.bind]: a new function object over the same name, parameters
    and body, whose context is a new frame [{"this": obj}] pushed on the
    function's own. *)
Definition LoxFunction_bind (f : addr) (obj : Value) (st : State) : Res addr :=
  match heap st !! f with
  | Some (LoxFunction name params body ctx)
  | Some (LoxInitFunction name params body ctx _) =>
      let '(c, st1) := ctx_push ctx {["this" := obj]} st in
      let '(b, st2) := alloc (LoxFunction name params body c) st1 in
      Ok b st2
  | _ => Undefined BadStore
  end.

(** [LoxInstance.__getattr__], which Python calls when the ordinary lookup
    on the instance has found nothing. *)
Definition LoxInstance_getattr (self : addr) (name : string) (st : State) : Res Value :=
  match heap st !! self with
  | Some (LoxInstance klass fields) =>
      match fields !! name with
      | Some v => Ok v st
      | None =>
          match
            (let* (method, st1) := get_method klass name st in
             if decide (name = "init") then
               let* (bound, st2) := LoxFunction_bind method (VObj self) st1 in
               match heap st2 !! bound with
               | Some (LoxFunction bname bparams bbody bctx) =>
                   let '(i, st3) := alloc (LoxInitFunction bname bparams bbody bctx self) st2 in
                   Ok (VObj i) st3
               | _ => Undefined BadStore
               end
             else
               let* (bound, st2) := LoxFunction_bind method (VObj self) st1 in
               Ok (VObj bound) st2)
          with
          | Raise (LoxError _) st' => Raise (LoxError ("Campo '" +:+ name +:+ "' não existe")) st'
          | r => r
          end
      end
  | _ => Undefined BadStore
  end.

(** [LoxInstance.set_field]. *)
Definition set_field (self : addr) (name : string) (value : Value) (st : State) : Res Value :=
  match heap st !! self with
  | Some (LoxInstance klass fields) =>
      Ok value (store self (LoxInstance klass (<[name := value]> fields)) st)
  | _ => Undefined BadStore
  end.

(** ** [runtime.py]: the semantics functions

    [eq], [ne], [add] and [print] are [lox_eq], [lox_ne], [lox_add] and
    [lox_print] here, their names being taken ([ast.py] itself imports
    [print] as [lox_print]). *)

(** [truthy]: only [None] and [False] are false. *)
Definition truthy (value : Value) : bool :=
  match value with
  | VNil | VBool false => false
  | _ => true
  end.

(** [not_]. *)
Definition not_ (value : Value) : Value := VBool (negb (truthy value)).

(** Python's [str(value)], as the f-strings of the error messages and the
    last line of [show] use it. *)
Definition py_str (h : list Obj) (value : Value) : option string :=
  match value with
  | VNil => Some "None"
  | VBool true => Some "True"
  | VBool false => Some "False"
  | VNum x => Some (float_repr x)
  | VStr s => Some s
  | VObj a =>
      match h !! a with
      | Some (LoxFunction name _ _ _) | Some (LoxInitFunction name _ _ _ _) =>
          Some (if decide (name = "") then "<fn>" else "<fn " +:+ name +:+ ">")
      | Some (LoxClass name _ _) => Some name
      | Some (LoxInstance klass _) =>
          match h !! klass with
          | Some (LoxClass kname _ _) => Some (kname +:+ " instance")
          | _ => None
          end
      | _ => None
      end
  end.

(** [show].  No value of the embedding is a Python function of the host, so
    the ["<native fn>"] branch is never taken. *)
Definition show (h : list Obj) (value : Value) : option string :=
  match value with
  | VNil => Some "nil"
  | VBool true => Some "true"
  | VBool false => Some "false"
  | VNum x => Some (removesuffix (float_repr x) ".0")
  | _ => py_str h value
  end.

(** [print]: one line on standard output. *)
Definition lox_print (value : Value) (st : State) : Res unit :=
  match show (heap st) value with
  | Some line => Ok tt {| heap := heap st; stdout := stdout st ++ [line] |}
  | None => Undefined BadStore
  end.

(** *** Python's [==]

    The runtime classes and the node classes are dataclasses: their
    generated [__eq__] compares the tuples of the fields when both objects
    have the same class.  Tuples, lists and dicts compare their items with
    the identity shortcut ([x is y or x == y]).

    Objects have an address and are identical when it is the same; nil and
    the booleans are singletons; floats and strings are carried by value.
    For an item that is a float or a string the shortcut changes nothing
    when [==] already says yes, and two items that are one object have one
    value: the one case in which it decides is that of two nan, which are
    equal as items when they are one float object and unequal when they are
    two.  The embedding does not follow which float object a nan is, and
    gives no answer there. *)

Definition float_of_bool (b : bool) : PyFloat :=
  FFin false [if b then 1%nat else 0%nat] 1.

Definition prim_eq (a b : Value) : bool :=
  match a, b with
  | VNil, VNil => true
  | VBool x, VBool y => bool_decide (x = y)
  | VNum x, VNum y => float_eq x y
  | VBool x, VNum y | VNum y, VBool x => float_eq (float_of_bool x) y
  | VStr x, VStr y => bool_decide (x = y)
  | VObj x, VObj y => bool_decide (x = y)
  | _, _ => false
  end.

Definition list_eqb {A : Type} (f : A -> A -> bool) : list A -> list A -> bool :=
  fix go l1 l2 :=
    match l1, l2 with
    | [], [] => true
    | x :: l1', y :: l2' => f x y && go l1' l2'
    | _, _ => false
    end.

Definition option_eqb {A : Type} (f : A -> A -> bool) (o1 o2 : option A) : bool :=
  match o1, o2 with
  | None, None => true
  | Some x, Some y => f x y
  | _, _ => false
  end.

Fixpoint Expr_eq (a b : Expr) {struct a} : bool :=
  match a, b with
  | BinOp l1 r1 o1, BinOp l2 r2 o2 => Expr_eq l1 l2 && Expr_eq r1 r2 && bool_decide (o1 = o2)
  | Var n1, Var n2 => bool_decide (n1 = n2)
  | Literal v1, Literal v2 => prim_eq v1 v2
  | And l1 r1, And l2 r2 => Expr_eq l1 l2 && Expr_eq r1 r2
  | Or l1 r1, Or l2 r2 => Expr_eq l1 l2 && Expr_eq r1 r2
  | UnaryOp e1 o1, UnaryOp e2 o2 => Expr_eq e1 e2 && bool_decide (o1 = o2)
  | Call c1 p1, Call c2 p2 => Expr_eq c1 c2 && list_eqb Expr_eq p1 p2
  | This, This => true
  | Super n1, Super n2 => bool_decide (n1 = n2)
  | Assign n1 v1, Assign n2 v2 => bool_decide (n1 = n2) && Expr_eq v1 v2
  | Getattr o1 n1, Getattr o2 n2 => Expr_eq o1 o2 && bool_decide (n1 = n2)
  | Setattr o1 n1 v1, Setattr o2 n2 v2 =>
      Expr_eq o1 o2 && bool_decide (n1 = n2) && Expr_eq v1 v2
  | _, _ => false
  end.

Fixpoint Stmt_eq (a b : Stmt) {struct a} : bool :=
  match a, b with
  | ExprStmt e1, ExprStmt e2 => Expr_eq e1 e2
  | Print e1, Print e2 => Expr_eq e1 e2
  | Return v1, Return v2 => option_eqb Expr_eq v1 v2
  | VarDef n1 i1, VarDef n2 i2 => bool_decide (n1 = n2) && Expr_eq i1 i2
  | If c1 t1 e1, If c2 t2 e2 => Expr_eq c1 c2 && Stmt_eq t1 t2 && Stmt_eq e1 e2
  | While c1 b1, While c2 b2 => Expr_eq c1 c2 && Stmt_eq b1 b2
  | Block s1, Block s2 => list_eqb Stmt_eq s1 s2
  | FunctionDecl f1, FunctionDecl f2 => Function_eq f1 f2
  | Class n1 m1 b1, Class n2 m2 b2 =>
      bool_decide (n1 = n2) && list_eqb Function_eq m1 m2 && bool_decide (b1 = b2)
  | _, _ => false
  end
with Function_eq (f g : Function) {struct f} : bool :=
  match f, g with
  | MkFunction n1 p1 b1, MkFunction n2 p2 b2 =>
      bool_decide (n1 = n2) && bool_decide (p1 = p2) && list_eqb Stmt_eq b1 b2
  end.

Definition identical (a b : Value) : bool :=
  match a, b with
  | VObj x, VObj y => bool_decide (x = y)
  | _, _ => false
  end.

Section Compare.
(** The comparison of two items: [PyObject_RichCompareBool(x, y, Py_EQ)]. *)
Variable rich : Value -> Value -> option bool.

Fixpoint dict_items_eq (items : list (string * Value)) (d2 : gmap string Value)
  : option bool :=
  match items with
  | [] => Some true
  | (k, x) :: items' =>
      match d2 !! k with
      | None => Some false
      | Some y =>
          match rich x y with
          | Some true => dict_items_eq items' d2
          | r => r
          end
      end
  end.

Definition dict_eq (d1 d2 : gmap string Value) : option bool :=
  if bool_decide (size d1 = size d2) then dict_items_eq (map_to_list d1) d2
  else Some false.

Definition and_then (b : option bool) (k : option bool) : option bool :=
  match b with
  | Some true => k
  | r => r
  end.
End Compare.

(** [a == b]; [None] when the comparison recurses deeper than [n] (a cycle
    of instance fields), meets a dangling address, or comes to two items
    that are both nan.  A [Ctx] has no [__eq__] in the spec's description
    and is compared by identity. *)
Fixpoint py_eq (n : nat) (h : list Obj) (a b : Value) {struct n} : option bool :=
  match n with
  | O => None
  | S n' =>
      let rich x y :=
        if identical x y then Some true
        else match x, y with
             | VNum FNan, VNum FNan => None
             | _, _ => py_eq n' h x y
             end in
      match a, b with
      | VObj x, VObj y =>
          match h !! x, h !! y with
          | Some (LoxInstance k1 f1), Some (LoxInstance k2 f2) =>
              and_then (rich (VObj k1) (VObj k2))
                       (if bool_decide (x = y) then Some true else dict_eq rich f1 f2)
          | Some (LoxClass n1 m1 b1), Some (LoxClass n2 m2 b2) =>
              if bool_decide (n1 = n2) then
                and_then (if bool_decide (x = y) then Some true
                          else dict_eq rich (VObj <$> m1) (VObj <$> m2))
                         (match b1, b2 with
                          | None, None => Some true
                          | Some c1, Some c2 => rich (VObj c1) (VObj c2)
                          | _, _ => Some false
                          end)
              else Some false
          | Some (LoxFunction n1 p1 b1 c1), Some (LoxFunction n2 p2 b2 c2) =>
              if bool_decide (n1 = n2) && bool_decide (p1 = p2) && list_eqb Stmt_eq b1 b2
              then rich (VObj c1) (VObj c2) else Some false
          | Some (LoxInitFunction n1 p1 b1 c1 i1), Some (LoxInitFunction n2 p2 b2 c2 i2) =>
              if bool_decide (n1 = n2) && bool_decide (p1 = p2) && list_eqb Stmt_eq b1 b2
              then and_then (rich (VObj c1) (VObj c2)) (rich (VObj i1) (VObj i2))
              else Some false
          | Some (Ctx _ _), Some (Ctx _ _) => Some (bool_decide (x = y))
          | Some _, Some _ => Some false
          | _, _ => None
          end
      | _, _ => Some (prim_eq a b)
      end
  end.

(** [eq]: values of different Python classes are never equal; otherwise
    Python's [==] decides. *)
Definition lox_eq (n : nat) (h : list Obj) (a b : Value) : option bool :=
  match type_of h a, type_of h b with
  | Some ta, Some tb => if decide (ta = tb) then py_eq n h a b else Some false
  | _, _ => None
  end.

(** [ne]. *)
Definition lox_ne (n : nat) (h : list Obj) (a b : Value) : option bool :=
  negb <$> lox_eq n h a b.

(** ** What the interpreter leaves to Python

    Two things are decided by the host and not by the sources: the
    arithmetic of floats, and the attributes that Python's own attribute
    lookup finds on a value beyond those the sources declare (the methods of
    [float] and [str], the attributes every object inherits).  A lookup
    either finds nothing, or finds a Lox value (the [real] of a float), or
    finds a Python object that is no Lox value (a bound method). *)

Inductive HostLookup : Type :=
| HostMiss
| HostValue (v : Value)
| HostOther.

Record Host : Type := MkHost {
  py_getattr : PyType -> Value -> string -> HostLookup;
  float_add : PyFloat -> PyFloat -> PyFloat;
  float_sub : PyFloat -> PyFloat -> PyFloat;
  float_mul : PyFloat -> PyFloat -> PyFloat;
  float_truediv : PyFloat -> PyFloat -> PyFloat;
  float_lt : PyFloat -> PyFloat -> bool;
  float_le : PyFloat -> PyFloat -> bool
}.

Definition float_neg (x : PyFloat) : PyFloat :=
  match x with
  | FNan => FNan
  | FInf s => FInf (negb s)
  | FFin s ds p => FFin (negb s) ds p
  end.

(** [neg]. *)
Definition neg (value : Value) (st : State) : Res Value :=
  match value with
  | VNum x => Ok (VNum (float_neg x)) st
  | _ => Raise (LoxError "Operand must be a number.") st
  end.

Section Interp.
Variable host : Host.

(** [add]. *)
Definition lox_add (a b : Value) (st : State) : Res Value :=
  match a, b with
  | VNum x, VNum y => Ok (VNum (float_add host x y)) st
  | VStr x, VStr y => Ok (VStr (x +:+ y)) st
  | _, _ => Raise (LoxError "Operands must be two numbers or two strings.") st
  end.

(** [_check_numbers] followed by the operation [f] on the two floats. *)
Definition on_numbers (f : PyFloat -> PyFloat -> State -> Res Value)
    (a b : Value) (st : State) : Res Value :=
  match a, b with
  | VNum x, VNum y => f x y st
  | _, _ => Raise (LoxError "Operands must be numbers.") st
  end.

(** [sub], [mul], [truediv], [lt], [le], [gt], [ge], [eq], [ne], as
    [BinOp.eval] calls [self.op]. *)
Definition call_binop (n : nat) (op : BinOperator) (a b : Value) (st : State) : Res Value :=
  (* no answer from [eq]: the bound is used up, or an address dangles, or
     the comparison came to two nan items *)
  let of_bool (r : option bool) : Res Value :=
    match r with
    | Some t => Ok (VBool t) st
    | None => Undefined OutOfFuel
    end in
  match op with
  | op_add => lox_add a b st
  | op_sub => on_numbers (fun x y st => Ok (VNum (float_sub host x y)) st) a b st
  | op_mul => on_numbers (fun x y st => Ok (VNum (float_mul host x y)) st) a b st
  | op_truediv =>
      on_numbers (fun x y st =>
                    if float_is_zero y then Raise (LoxError "Division by zero.") st
                    else Ok (VNum (float_truediv host x y)) st) a b st
  | op_eq => of_bool (lox_eq n (heap st) a b)
  | op_ne => of_bool (lox_ne n (heap st) a b)
  | op_lt => on_numbers (fun x y st => Ok (VBool (float_lt host x y)) st) a b st
  | op_le => on_numbers (fun x y st => Ok (VBool (float_le host x y)) st) a b st
  | op_gt => on_numbers (fun x y st => Ok (VBool (float_lt host y x)) st) a b st
  | op_ge => on_numbers (fun x y st => Ok (VBool (float_le host y x)) st) a b st
  end.

Definition call_unaryop (op : UnaryOperator) (value : Value) (st : State) : Res Value :=
  match op with
  | op_neg => neg value st
  | op_not => Ok (not_ value) st
  end.

Definition host_lookup (t : PyType) (v : Value) (name : string) (st : State)
    (miss : Res Value) : Res Value :=
  match py_getattr host t v name with
  | HostValue r => Ok r st
  | HostOther => Undefined HostObject
  | HostMiss => miss
  end.

(** Python's builtin [getattr(v, name)].  The ordinary lookup comes first:
    it finds the dataclass fields of the object and the methods of its
    class, as the sources declare them, and whatever the host adds.  Only
    when it finds nothing is [__getattr__] tried, which [LoxInstance] alone
    defines.  A declared attribute whose value is a Lox value ([klass],
    [name], [instance]) is returned; for one whose value is a Python object
    that is no Lox value (a list, a dict, a node, a context, a bound
    method) the code goes on with that object and the embedding stops. *)
Definition getattr (v : Value) (name : string) (st : State) : Res Value :=
  match v with
  | VObj a =>
      match heap st !! a with
      | Some (LoxInstance klass fields) =>
          if decide (name = "klass") then Ok (VObj klass) st
          else if bool_decide (name ∈ ["fields"; "get_field"; "set_field";
                                       "__getattr__"; "__str__"])
          then Undefined HostObject
          else host_lookup TLoxInstance v name st (LoxInstance_getattr a name st)
      | Some (LoxFunction fname params body ctx) =>
          if decide (name = "name") then Ok (VStr fname) st
          else if bool_decide (name ∈ ["params"; "body"; "ctx"; "bind"; "call";
                                       "__call__"; "__str__"])
          then Undefined HostObject
          else host_lookup TLoxFunction v name st (Raise HostAttributeError st)
      | Some (LoxInitFunction fname params body ctx instance) =>
          if decide (name = "name") then Ok (VStr fname) st
          else if decide (name = "instance") then Ok (VObj instance) st
          else if bool_decide (name ∈ ["params"; "body"; "ctx"; "bind"; "call";
                                       "__call__"; "__str__"])
          then Undefined HostObject
          else host_lookup TLoxInitFunction v name st (Raise HostAttributeError st)
      | Some (LoxClass cname methods base) =>
          if decide (name = "name") then Ok (VStr cname) st
          else if decide (name = "base")
          then Ok (match base with Some b => VObj b | None => VNil end) st
          else if bool_decide (name ∈ ["methods"; "get_method"; "__call__"; "__str__"])
          then Undefined HostObject
          else host_lookup TLoxClass v name st (Raise HostAttributeError st)
      | _ => Undefined BadStore
      end
  | VNil => host_lookup TNone v name st (Raise HostAttributeError st)
  | VBool _ => host_lookup TBool v name st (Raise HostAttributeError st)
  | VNum _ => host_lookup TFloat v name st (Raise HostAttributeError st)
  | VStr _ => host_lookup TStr v name st (Raise HostAttributeError st)
  end.

(** Python's builtin [setattr(v, name, value)] on nil, a boolean, a float
    or a string, with a Lox value to store.  These objects have no
    [__dict__], so [object.__setattr__] only looks for a data descriptor in
    the type.  The one whose setter does not raise [AttributeError] is
    [__class__], of [object]: it raises [TypeError] for a value that is no
    class, and no Lox value is one.  Every other name ends in
    [AttributeError] (no such attribute, read-only, or not writable).
    Nothing is ever stored. *)
Definition py_setattr (name : string) (st : State) : Res unit :=
  if decide (name = "__class__") then Raise HostTypeError st
  else Raise HostAttributeError st.

(** [dict(zip(param_names, args))]: a later pair overwrites an earlier one. *)
Definition dict_zip (names : list string) (args : list Value) : gmap string Value :=
  foldl (fun d kv => <[kv.1 := kv.2]> d) ∅ (zip names args).

Definition is_None (v : Value) : bool := match v with VNil => true | _ => false end.
Definition is_False (v : Value) : bool := match v with VBool false => true | _ => false end.

Definition not_a_function (func : Value) (st : State) : Res Value :=
  match py_str (heap st) func with
  | Some s => Raise (TypeError ("'" +:+ s +:+ "' não é uma função!")) st
  | None => Undefined BadStore
  end.

Definition no_attribute (obj_value : Value) (name : string) (st : State) : Res Value :=
  match py_str (heap st) obj_value with
  | Some s => Raise (AttributeError ("O objeto " +:+ s +:+ " não possui o atributo '"
                                     +:+ name +:+ "'")) st
  | None => Undefined BadStore
  end.

(** The methods of a class body, in order: one [LoxFunction] per declared
    method over the shared context, a later method of the same name
    replacing an earlier one. *)
Definition make_methods (method_ctx : addr) (methods : list Function) (st : State)
  : gmap string addr * State :=
  foldl (fun acc method =>
           let '(a, s) := alloc (LoxFunction (fn_name method) (fn_params method)
                                             (fn_body method) method_ctx) acc.2 in
           (<[fn_name method := a]> acc.1, s))
        (∅, st) methods.

(** ** The evaluator

    [eval_expr] and [eval_stmt] are the [eval] methods of the node classes,
    [call] is the [__call__] of the Lox callables and
    [LoxFunction_call] is [LoxFunction.call].  Python recursion has no
    measure that decreases (a [while] need not stop), so the functions take
    a bound [fuel] on the depth of nested calls and answer
    [Undefined OutOfFuel] when it is used up.

    In [LoxFunction.call] the tests [hasattr(self, "bind_instance")] and
    [hasattr(self, "bind_superclass")] are false, no code setting such an
    attribute, and so is [hasattr(self.ctx, "superclass")] for the [Ctx] of
    the spec; what is left is the test on a first parameter named [this]. *)
Fixpoint eval_expr (fuel : nat) (e : Expr) (ctx : addr) (st : State) {struct fuel}
  : Res Value :=
  match fuel with
  | O => Undefined OutOfFuel
  | S n =>
      match e with
      | BinOp left_ right_ op =>
          let* (left_value, st1) := eval_expr n left_ ctx st in
          let* (right_value, st2) := eval_expr n right_ ctx st1 in
          call_binop n op left_value right_value st2
      | Var name =>
          match ctx_getitem (heap st) ctx name with
          | Some v => Ok v st
          | None => Raise (NameError ("variável " +:+ name +:+ " não existe!")) st
          end
      | Literal value => Ok value st
      | And left_ right_ =>
          let* (left_val, st1) := eval_expr n left_ ctx st in
          if is_False left_val || is_None left_val then Ok left_val st1
          else eval_expr n right_ ctx st1
      | Or left_ right_ =>
          let* (left_val, st1) := eval_expr n left_ ctx st in
          if negb (is_False left_val) && negb (is_None left_val) then
            if match left_val with VNum x => float_is_zero x | _ => false end
            then Ok left_val st1
            else if match left_val with VStr s => bool_decide (s = "") | _ => false end
            then Ok left_val st1
            else Ok left_val st1
          else eval_expr n right_ ctx st1
      | UnaryOp operand op =>
          let* (value, st1) := eval_expr n operand ctx st in
          call_unaryop op value st1
      | Call callee params =>
          let* (func, st1) := eval_expr n callee ctx st in
          let* (args, st2) := eval_params n params ctx st1 in
          match type_of (heap st2) func with
          | Some t => if callable t then call n func args st2
                      else not_a_function func st2
          | None => Undefined BadStore
          end
      | This =>
          match ctx_getitem (heap st) ctx "this" with
          | Some v => Ok v st
          | None => Raise (NameError "variável this não existe!") st
          end
      | Super name =>
          match ctx_getitem (heap st) ctx "this" with
          | None => Raise (NameError "variável this não existe!") st
          | Some instance =>
              match ctx_getitem (heap st) ctx "super" with
              | None => Raise (NameError "variável super não existe!") st
              | Some (VObj superclass) =>
                  match type_of (heap st) (VObj superclass) with
                  | Some TLoxClass =>
                      let* (method, st1) := get_method superclass name st in
                      let* (bound, st2) := LoxFunction_bind method instance st1 in
                      Ok (VObj bound) st2
                  | Some _ => Undefined HostObject
                  | None => Undefined BadStore
                  end
              | Some _ => Undefined HostObject
              end
          end
      | Assign name value =>
          let* (result, st1) := eval_expr n value ctx st in
          let* (_, st2) := ctx_assign ctx name result st1 in
          Ok result st2
      | Getattr obj name =>
          let* (obj_value, st1) := eval_expr n obj ctx st in
          match obj_value, type_of (heap st1) obj_value with
          | VObj c, Some TLoxClass =>
              match get_method c name st1 with
              | Ok f st2 => Ok (VObj f) st2
              | Raise _ st2 => no_attribute obj_value name st2
              | Undefined w => Undefined w
              end
          | _, Some _ =>
              match getattr obj_value name st1 with
              | Raise e st2 =>
                  if is_AttributeError e then no_attribute obj_value name st2
                  else Raise e st2
              | r => r
              end
          | _, None => Undefined BadStore
          end
      | Setattr obj name value =>
          let* (obj_val, st1) := eval_expr n obj ctx st in
          let* (val, st2) := eval_expr n value ctx st1 in
          match obj_val, type_of (heap st2) obj_val with
          | _, Some (TLoxClass | TLoxFunction | TLoxInitFunction) =>
              Raise (LoxError "Apenas instâncias podem ter campos.") st2
          | VObj a, Some TLoxInstance =>
              let* (_, st3) := set_field a name val st2 in
              Ok val st3
          | _, Some (TNone | TBool | TFloat | TStr) =>
              let* (_, st3) := py_setattr name st2 in
              Ok val st3
          | _, _ => Undefined BadStore
          end
      end
  end
with eval_params (fuel : nat) (params : list Expr) (ctx : addr) (st : State)
    {struct fuel} : Res (list Value) :=
  match fuel with
  | O => Undefined OutOfFuel
  | S n =>
      match params with
      | [] => Ok [] st
      | param :: rest =>
          let* (v, st1) := eval_expr n param ctx st in
          let* (vs, st2) := eval_params n rest ctx st1 in
          Ok (v :: vs) st2
      end
  end
with eval_stmt (fuel : nat) (s : Stmt) (ctx : addr) (st : State) {struct fuel}
  : Res unit :=
  match fuel with
  | O => Undefined OutOfFuel
  | S n =>
      match s with
      | ExprStmt expr =>
          let* (_, st1) := eval_expr n expr ctx st in
          Ok tt st1
      | Print expr =>
          let* (value, st1) := eval_expr n expr ctx st in
          lox_print value st1
      | Return value =>
          match value with
          | Some expr =>
              let* (return_value, st1) := eval_expr n expr ctx st in
              Raise (LoxReturn return_value) st1
          | None => Raise (LoxReturn VNil) st
          end
      | VarDef name initializer =>
          let* (value, st1) := eval_expr n initializer ctx st in
          ctx_var_def ctx name value st1
      | If condition then_branch else_branch =>
          let* (condition_val, st1) := eval_expr n condition ctx st in
          if negb (is_False condition_val) && negb (is_None condition_val)
          then eval_stmt n then_branch ctx st1
          else eval_stmt n else_branch ctx st1
      | While condition body =>
          let* (condition_val, st1) := eval_expr n condition ctx st in
          if is_False condition_val || is_None condition_val then Ok tt st1
          else
            let* (_, st2) := eval_stmt n body ctx st1 in
            eval_stmt n (While condition body) ctx st2
      | Block stmts =>
          let '(new_ctx, st1) := ctx_push ctx ∅ st in
          eval_stmts n stmts new_ctx st1
      | FunctionDecl (MkFunction name params body) =>
          let '(function, st1) := alloc (LoxFunction name params body ctx) st in
          ctx_var_def ctx name (VObj function) st1
      | Class name methods base =>
          let* (superclass, st1) :=
            match base with
            | None => Ok None st
            | Some base_name =>
                match ctx_getitem (heap st) ctx base_name with
                | None => Raise (NameError ("variável " +:+ base_name +:+ " não existe!")) st
                | Some base_value =>
                    match base_value, type_of (heap st) base_value with
                    | VObj b, Some TLoxClass => Ok (Some b) st
                    | _, Some _ => Raise (LoxError ("'" +:+ base_name +:+ "' não é uma classe")) st
                    | _, None => Undefined BadStore
                    end
                end
            end in
          let '(method_ctx, st2) :=
            match superclass with
            | None => (ctx, st1)
            | Some b => ctx_push ctx {["super" := VObj b]} st1
            end in
          let '(methods_dict, st3) := make_methods method_ctx methods st2 in
          let '(lox_class, st4) := alloc (LoxClass name methods_dict superclass) st3 in
          ctx_var_def ctx name (VObj lox_class) st4
      end
  end
with eval_stmts (fuel : nat) (stmts : list Stmt) (ctx : addr) (st : State)
    {struct fuel} : Res unit :=
  match fuel with
  | O => Undefined OutOfFuel
  | S n =>
      match stmts with
      | [] => Ok tt st
      | stmt :: rest =>
          let* (_, st1) := eval_stmt n stmt ctx st in
          eval_stmts n rest ctx st1
      end
  end
with call (fuel : nat) (func : Value) (args : list Value) (st : State) {struct fuel}
  : Res Value :=
  match fuel with
  | O => Undefined OutOfFuel
  | S n =>
      match func with
      | VObj self =>
          match heap st !! self with
          | Some (LoxFunction name params body fctx) =>
              LoxFunction_call n name params body fctx args st
          | Some (LoxInitFunction name params body fctx instance) =>
              let* (_, st1) := LoxFunction_call n name params body fctx args st in
              Ok (VObj instance) st1
          | Some (LoxClass _ _ _) =>
              let '(instance, st1) := alloc (LoxInstance self ∅) st in
              match
                (let* (initializer, st2) := get_method self "init" st1 in
                 let* (bound_initializer, st3) := LoxFunction_bind initializer (VObj instance) st2 in
                 call n (VObj bound_initializer) args st3)
              with
              | Ok _ st' => Ok (VObj instance) st'
              | Raise (LoxError _) st' =>
                  if bool_decide (0 < length args)%nat
                  then Raise (TypeError ("Esperava 0 argumentos mas recebeu "
                                         +:+ pretty (length args))) st'
                  else Ok (VObj instance) st'
              | Raise e st' => Raise e st'
              | Undefined w => Undefined w
              end
          | _ => Undefined BadStore
          end
      | _ => Undefined BadStore
      end
  end
with LoxFunction_call (fuel : nat) (name : string) (params : list string)
    (body : list Stmt) (fctx : addr) (args : list Value) (st : State) {struct fuel}
  : Res Value :=
  match fuel with
  | O => Undefined OutOfFuel
  | S n =>
      if negb (bool_decide (length args = length params)) then
        Raise (TypeError ("'" +:+ name +:+ "' esperava " +:+ pretty (length params)
                          +:+ " argumentos, mas recebeu " +:+ pretty (length args) +:+ ".")) st
      else
        let local_env := dict_zip params args in
        let this :=
          match params with
          | p :: _ => if decide (p = "this") then default VNil (head args) else VNil
          | [] => VNil
          end in
        let '(call_ctx, st1) :=
          if negb (is_None this)
          then ctx_push fctx (<["this" := this]> local_env) st
          else ctx_push fctx local_env st in
        match eval_stmt n (Block body) call_ctx st1 with
        | Ok _ st2 => Ok VNil st2
        | Raise (LoxReturn value) st2 => Ok value st2
        | Raise e st2 => Raise e st2
        | Undefined w => Undefined w
        end
  end.

(** [Program.eval]. *)
Definition eval_program (fuel : nat) (program : Program) (ctx : addr) (st : State)
  : Res unit :=
  eval_stmts fuel program ctx st.

End Interp.

(** ** Semantic validation

    [validate_self] of [This], [Super], [Return], [VarDef], [Block] and
    [Function] are in [ast.py]; the node framework they are called from
    ([node.py]: [Node], [Cursor]) and [SemanticError] ([errors.py]) are not
    among the sources. *)

Definition RESERVED_WORDS : list string :=
  ["and"; "class"; "else"; "false"; "for"; "fun"; "if"; "nil";
   "or"; "print"; "return"; "super"; "this"; "true"; "var"; "while"].

Record SemanticError : Type := MkSemanticError { sem_msg : string; sem_token : string }.

Inductive Node : Type :=
| ProgramNode (program : Program)
| ExprNode (e : Expr)
| StmtNode (s : Stmt).

(** Modelled from the spec: the [Cursor] of [node.py].  The spec describes
    it as the stack of the enclosing nodes of the node being visited; here
    the innermost one comes first.  [is_scoped_to(K)] holds when one of them
    is of class [K]; [class_scope()] is the nearest enclosing [Class], and
    has none to give outside of every class. *)
Definition Cursor := list Node.

Definition is_Function_node (n : Node) : bool :=
  match n with StmtNode (FunctionDecl _) => true | _ => false end.

Definition is_Class_node (n : Node) : bool :=
  match n with StmtNode (Class _ _ _) => true | _ => false end.

Definition is_scoped_to (kind : Node -> bool) (cursor : Cursor) : bool :=
  existsb kind cursor.

Definition class_scope (cursor : Cursor) : option Node :=
  find is_Class_node cursor.

Definition first_error (a b : option SemanticError) : option SemanticError :=
  match a with
  | Some e => Some e
  | None => b
  end.

Definition first_of {A : Type} (f : A -> option SemanticError)
  : list A -> option SemanticError :=
  fix go l :=
    match l with
    | [] => None
    | x :: l' => first_error (f x) (go l')
    end.

(** [This.validate_self]. *)
Definition This_validate_self (cursor : Cursor) : option SemanticError :=
  if negb (is_scoped_to is_Class_node cursor)
  then Some (MkSemanticError "Can't use 'this' outside of a class." "this")
  else None.

(** [Super.validate_self]. *)
Definition Super_validate_self (cursor : Cursor) : option SemanticError :=
  if negb (is_scoped_to is_Class_node cursor)
  then Some (MkSemanticError "Can't use 'super' outside of a class." "super")
  else
    match class_scope cursor with
    | Some (StmtNode (Class _ _ None)) =>
        Some (MkSemanticError "Can't use 'super' in a class with no superclass." "super")
    | Some _ => None
    | None => Some (MkSemanticError "Can't use 'super' outside of a class." "super")
    end.

(** [Return.validate_self]. *)
Definition Return_validate_self (cursor : Cursor) : option SemanticError :=
  if negb (is_scoped_to is_Function_node cursor)
  then Some (MkSemanticError "Can't return from top-level code." "return")
  else None.

(** [VarDef.validate_self]. *)
Definition VarDef_validate_self (name : string) : option SemanticError :=
  if bool_decide (name ∈ RESERVED_WORDS)
  then Some (MkSemanticError ("Cannot use reserved word '" +:+ name
                              +:+ "' as a variable name.") name)
  else None.

(** [Block.validate_self]: the loop over the statements, with the set of
    the names seen so far. *)
Fixpoint Block_check (seen : list string) (stmts : list Stmt) : option SemanticError :=
  match stmts with
  | [] => None
  | VarDef name _ :: rest =>
      if bool_decide (name ∈ seen)
      then Some (MkSemanticError ("Variable '" +:+ name
                                  +:+ "' has already been declared in this block.") name)
      else Block_check (name :: seen) rest
  | _ :: rest => Block_check seen rest
  end.

Definition Block_validate_self (stmts : list Stmt) : option SemanticError :=
  Block_check [] stmts.

Fixpoint duplicate_param (seen : list string) (params : list string)
  : option SemanticError :=
  match params with
  | [] => None
  | param :: rest =>
      if bool_decide (param ∈ seen)
      then Some (MkSemanticError ("Duplicate parameter name '" +:+ param
                                  +:+ "' in function declaration.") param)
      else duplicate_param (param :: seen) rest
  end.

(** [Function.validate_self]: its three loops, in order. *)
Definition Function_validate_self (f : Function) : option SemanticError :=
  first_error
    (first_of (fun param =>
                 if bool_decide (param ∈ RESERVED_WORDS)
                 then Some (MkSemanticError ("Cannot use reserved word '" +:+ param
                                             +:+ "' as a parameter name.") param)
                 else None) (fn_params f))
    (first_error
       (duplicate_param [] (fn_params f))
       (first_of (fun stmt =>
                    match stmt with
                    | VarDef name _ =>
                        if bool_decide (name ∈ fn_params f)
                        then Some (MkSemanticError ("Variable '" +:+ name
                                                    +:+ "' shadows a function parameter.") name)
                        else None
                    | _ => None
                    end) (fn_body f))).

Definition validate_self (cursor : Cursor) (n : Node) : option SemanticError :=
  match n with
  | ExprNode This => This_validate_self cursor
  | ExprNode (Super _) => Super_validate_self cursor
  | StmtNode (Return _) => Return_validate_self cursor
  | StmtNode (VarDef name _) => VarDef_validate_self name
  | StmtNode (Block stmts) => Block_validate_self stmts
  | StmtNode (FunctionDecl f) => Function_validate_self f
  | _ => None
  end.

(** The children of a node, in the order of the fields of its class. *)
Definition children (n : Node) : list Node :=
  match n with
  | ProgramNode program => StmtNode <$> program
  | ExprNode e =>
      match e with
      | BinOp l r _ | And l r | Or l r => [ExprNode l; ExprNode r]
      | UnaryOp e1 _ | Assign _ e1 | Getattr e1 _ => [ExprNode e1]
      | Call callee params => ExprNode callee :: (ExprNode <$> params)
      | Setattr o _ v => [ExprNode o; ExprNode v]
      | Var _ | Literal _ | This | Super _ => []
      end
  | StmtNode s =>
      match s with
      | ExprStmt e | Print e | VarDef _ e | Return (Some e) => [ExprNode e]
      | Return None => []
      | If c t e => [ExprNode c; StmtNode t; StmtNode e]
      | While c b => [ExprNode c; StmtNode b]
      | Block stmts => StmtNode <$> stmts
      | FunctionDecl f =>
          (ExprNode <$> (Var <$> fn_params f)) ++ [StmtNode (Block (fn_body f))]
      | Class _ methods base =>
          (StmtNode <$> (FunctionDecl <$> methods))
          ++ match base with Some b => [ExprNode (Var b)] | None => [] end
      end
  end.

(** Modelled from the spec: the traversal of [node.py].  A single pre-order
    walk: at each node [validate_self] is called with the cursor of the
    enclosing nodes, then the children are visited in order with the node
    pushed on the cursor; the first failure is the result. *)
Fixpoint validate_expr (cursor : Cursor) (e : Expr) {struct e} : option SemanticError :=
  first_error (validate_self cursor (ExprNode e))
    (let inner := ExprNode e :: cursor in
     match e with
     | BinOp l r _ | And l r | Or l r =>
         first_error (validate_expr inner l) (validate_expr inner r)
     | UnaryOp e1 _ | Assign _ e1 | Getattr e1 _ => validate_expr inner e1
     | Call callee params =>
         first_error (validate_expr inner callee) (first_of (validate_expr inner) params)
     | Setattr o _ v => first_error (validate_expr inner o) (validate_expr inner v)
     | Var _ | Literal _ | This | Super _ => None
     end).

Fixpoint validate_stmt (cursor : Cursor) (s : Stmt) {struct s} : option SemanticError :=
  first_error (validate_self cursor (StmtNode s))
    (let inner := StmtNode s :: cursor in
     match s with
     | ExprStmt e | Print e | VarDef _ e | Return (Some e) => validate_expr inner e
     | Return None => None
     | If c t e =>
         first_error (validate_expr inner c)
                     (first_error (validate_stmt inner t) (validate_stmt inner e))
     | While c b => first_error (validate_expr inner c) (validate_stmt inner b)
     | Block stmts => first_of (validate_stmt inner) stmts
     | FunctionDecl f => validate_body inner f
     | Class _ methods _ => first_of (validate_method inner) methods
     end)
with validate_body (inner : Cursor) (f : Function) {struct f} : option SemanticError :=
  match f with
  | MkFunction _ _ body =>
      first_error (Block_validate_self body)
                  (first_of (validate_stmt (StmtNode (Block body) :: inner)) body)
  end
with validate_method (cursor : Cursor) (f : Function) {struct f} : option SemanticError :=
  match f with
  | MkFunction name params body =>
      first_error (Function_validate_self f)
        (first_error (Block_validate_self body)
           (first_of (validate_stmt (StmtNode (Block body)
                                     :: StmtNode (FunctionDecl f) :: cursor)) body))
  end.

Definition validate_node (cursor : Cursor) (n : Node) : option SemanticError :=
  match n with
  | ProgramNode program => first_of (validate_stmt (n :: cursor)) program
  | ExprNode e => validate_expr cursor e
  | StmtNode s => validate_stmt cursor s
  end.

Definition validate (program : Program) : option SemanticError :=
  validate_node [] (ProgramNode program).

(** A node [n] occurs under the cursor [c] in the tree below [root]. *)
Inductive occurs (root : Node) : Cursor -> Node -> Prop :=
| occurs_root : occurs root [] root
| occurs_child c n n' : occurs root c n -> n' ∈ children n -> occurs root (n :: c) n'.

(** ** The pipeline

    Modelled from the spec: the embedding that runs a parsed program
    (validation, which must pass, then evaluation in a fresh global
    environment) is not among the sources. *)

Definition init_state : State := {| heap := [Ctx ∅ None]; stdout := [] |}.
Definition global_ctx : addr := 0%nat.

Inductive Outcome : Type :=
| Rejected (e : SemanticError)
| Executed (r : Res unit).

Definition run (host : Host) (fuel : nat) (program : Program) : Outcome :=
  match validate program with
  | Some e => Rejected e
  | None => Executed (eval_program host fuel program global_ctx init_state)
  end.

(** ** Notions used in the statements *)

(** A string that ends with the character [c]. *)
Definition ends_with (c : ascii) (s : string) : Prop :=
  exists t, s = t +:+ String c "".

(** What a program has printed when it has run to its end. *)
Definition printed (o : Outcome) : option (list string) :=
  match o with
  | Executed (Ok _ st) => Some (stdout st)
  | _ => None
  end.

(** The float [0.0]. *)
Definition zero : PyFloat := FFin false [0%nat] 1.

(** A host for closed examples: its attribute lookup finds nothing beyond
    what the sources declare, and its float arithmetic answers nan (no
    program run below computes with floats). *)
Definition bare_host : Host :=
  MkHost (fun _ _ _ => HostMiss) (fun _ _ => FNan) (fun _ _ => FNan)
         (fun _ _ => FNan) (fun _ _ => FNan) (fun _ _ => false) (fun _ _ => false).

(** The digits of a float in exponent notation: the first digit, then a
    dot and the other digits when there are any. *)
Definition mantissa (ds : list nat) : string :=
  match ds with
  | [] => ""
  | [d] => digits_string [d]
  | d :: rest => digits_string [d] +:+ "." +:+ digits_string rest
  end.

(** The literal of a whole number of one digit. *)
Definition number (n : nat) : Expr := Literal (VNum (FFin false [n] 1)).

(** The state after the declarations [decls] have run at top level. *)
Definition state_after (host : Host) (decls : list Stmt) : State :=
  match eval_program host (S (length decls)) decls global_ctx init_state with
  | Ok _ st | Raise _ st => st
  | Undefined _ => init_state
  end.

(** The attributes that the sources declare on function objects: the
    dataclass fields and the methods of [LoxFunction] (and the [instance]
    of a [LoxInitFunction]). *)
Definition declared_attrs (t : PyType) : list string :=
  match t with
  | TLoxFunction =>
      ["name"; "params"; "body"; "ctx"; "bind"; "call"; "__call__"; "__str__"]
  | TLoxInitFunction =>
      ["name"; "instance"; "params"; "body"; "ctx"; "bind"; "call"; "__call__"; "__str__"]
  | _ => []
  end.

(** The Python classes of the values that are neither instances nor
    classes. *)
Definition other_kind (t : PyType) : bool :=
  match t with
  | TNone | TBool | TFloat | TStr | TLoxFunction | TLoxInitFunction => true
  | _ => false
  end.

(** [class P { init(x) { this.x = x; return 5; } }] *)
Definition class_P : Stmt :=
  Class "P" [MkFunction "init" ["x"]
               [ExprStmt (Setattr This "x" (Var "x")); Return (Some (number 5))]] None.

(** The uses that the validator is there to refuse: a [return] that no
    function encloses, a [this] that no class encloses, a [super] whose
    nearest enclosing class has no superclass. *)
Inductive misuse (program : Program) : Prop :=
| return_outside_function (c : Cursor) (value : option Expr) :
    occurs (ProgramNode program) c (StmtNode (Return value)) ->
    (forall n, n ∈ c -> is_Function_node n = false) ->
    misuse program
| this_outside_class (c : Cursor) :
    occurs (ProgramNode program) c (ExprNode This) ->
    (forall n, n ∈ c -> is_Class_node n = false) ->
    misuse program
| super_without_superclass (inner outer : Cursor) (name cname : string)
    (methods : list Function) :
    occurs (ProgramNode program)
           (inner ++ StmtNode (Class cname methods None) :: outer)
           (ExprNode (Super name)) ->
    (forall n, n ∈ inner -> is_Class_node n = false) ->
    misuse program.



(** ** Further notions used in the statements *)

(** [LoxInstance.get_field]: a direct call of [__getattr__]. *)
Definition get_field (self : addr) (name : string) (st : State) : Res Value :=
  LoxInstance_getattr self name st.

(** The nearest declaration of a method along the base chain:
    [resolves h name c d f] says that, from the class [c] upwards, [d] is the
    first class whose own [methods] have [name], bound there to [f]. *)
Inductive resolves (h : list Obj) (name : string) : addr -> addr -> addr -> Prop :=
| resolves_own (c : addr) (cname : string) (methods : gmap string addr)
    (base : option addr) (f : addr) :
    h !! c = Some (LoxClass cname methods base) ->
    methods !! name = Some f ->
    resolves h name c c f
| resolves_base (c b d f : addr) (cname : string) (methods : gmap string addr) :
    h !! c = Some (LoxClass cname methods (Some b)) ->
    methods !! name = None ->
    resolves h name b d f ->
    resolves h name c d f.

(** [unresolved h name c r]: no class from [c] up to the class [r], which
    has no base, declares [name]. *)
Inductive unresolved (h : list Obj) (name : string) : addr -> addr -> Prop :=
| unresolved_root (c : addr) (cname : string) (methods : gmap string addr) :
    h !! c = Some (LoxClass cname methods None) ->
    methods !! name = None ->
    unresolved h name c c
| unresolved_base (c b r : addr) (cname : string) (methods : gmap string addr) :
    h !! c = Some (LoxClass cname methods (Some b)) ->
    methods !! name = None ->
    unresolved h name b r ->
    unresolved h name c r.

(** The base of a class is an older object than the class. *)
Definition classes_wf (h : list Obj) : Prop :=
  forall c cname methods b,
    h !! c = Some (LoxClass cname methods (Some b)) -> (b < c)%nat.

Definition is_number (v : Value) : bool :=
  match v with VNum _ => true | _ => false end.

Definition is_primitive (v : Value) : bool :=
  match v with VObj _ => false | _ => true end.

(** The operators that go through [_check_numbers]. *)
Definition numeric_only (op : BinOperator) : bool :=
  match op with
  | op_sub | op_mul | op_truediv | op_lt | op_le | op_gt | op_ge => true
  | _ => false
  end.

(** An evaluation that the embedding follows to its end, with a value or
    with an error, and the state it ends in. *)
Definition ends_in {A : Type} (r : Res A) (st' : State) : Prop :=
  match r with
  | Ok _ st | Raise _ st => st = st'
  | Undefined _ => False
  end.

(** An evaluation that does not end in a pending [return]. *)
Definition no_return {A : Type} (r : Res A) : Prop :=
  match r with
  | Raise (LoxReturn _) _ => False
  | _ => True
  end.

(** The message of [get_method] when the chain ends at the class [cname]. *)
Definition not_found (name cname : string) : string :=
  "Método '" +:+ name +:+ "' não encontrado na classe '" +:+ cname +:+ "'".

(** The names that the statements of a block declare with [var],
    themselves, not in nested statements. *)
Definition declared_names (stmts : list Stmt) : list string :=
  omap (fun s => match s with VarDef name _ => Some name | _ => None end) stmts.

(** How an object may change while a program runs: not at all, or, for an
    instance, in its fields, or, for a frame, in its variables, none of
    which is ever removed. *)
Inductive evolves : Obj -> Obj -> Prop :=
| evolves_same (o : Obj) : evolves o o
| evolves_fields (klass : addr) (fields fields' : gmap string Value) :
    evolves (LoxInstance klass fields) (LoxInstance klass fields')
| evolves_vars (vars vars' : gmap string Value) (parent : option addr) :
    (forall k, is_Some (vars !! k) -> is_Some (vars' !! k)) ->
    evolves (Ctx vars parent) (Ctx vars' parent).

(** [st'] comes after [st]: the output has only grown, every object is
    still there and has only changed as [evolves] allows, and the base
    chains are still well founded if they were. *)
Definition extends (st st' : State) : Prop :=
  stdout st `prefix_of` stdout st' /\
  (forall a o, heap st !! a = Some o ->
               exists o', heap st' !! a = Some o' /\ evolves o o') /\
  (classes_wf (heap st) -> classes_wf (heap st')).

Definition extending {A : Type} (st : State) (r : Res A) : Prop :=
  match r with
  | Ok _ st' | Raise _ st' => extends st st'
  | Undefined _ => True
  end.

(** The frames of [st], the frame [except] apart, are in [st'] with the
    same parent and the same names: none was added, none was removed. *)
Definition same_names (except : option addr) (st st' : State) : Prop :=
  forall a vars parent,
    Some a <> except ->
    heap st !! a = Some (Ctx vars parent) ->
    exists vars', heap st' !! a = Some (Ctx vars' parent) /\
                  forall k, is_Some (vars' !! k) <-> is_Some (vars !! k).

Definition keeps_names {A : Type} (except : option addr) (st : State) (r : Res A) : Prop :=
  match r with
  | Ok _ st' | Raise _ st' => same_names except st st'
  | Undefined _ => True
  end.
(** * Properties *)

(** ** Strings *)

Lemma append_cons (x : ascii) (a b : string) : String x a +:+ b = String x (a +:+ b).
Proof. reflexivity. Qed.

Lemma append_assoc (a b c : string) : (a +:+ b) +:+ c = a +:+ (b +:+ c).
Proof.
  induction a as [|x a IH]; [reflexivity|]. rewrite !append_cons. now rewrite IH.
Qed.

Lemma append_nil_r (a : string) : a +:+ "" = a.
Proof.
  induction a as [|x a IH]; [reflexivity|]. rewrite append_cons. now rewrite IH.
Qed.

Lemma count_char_app (c : ascii) (a b : string) :
  count_char c (a +:+ b) = (count_char c a + count_char c b)%nat.
Proof.
  induction a as [|x a IH]; [reflexivity|].
  rewrite append_cons. cbn [count_char]. rewrite IH. lia.
Qed.

Lemma digit_char_not_dot (d : nat) : (d < 10)%nat -> Ascii.eqb "." (digit_char d) = false.
Proof.
  intros Hd. do 10 (destruct d as [|d]; [reflexivity|]). lia.
Qed.

Lemma digit_char_not_zero (d : nat) :
  (d < 10)%nat -> d <> 0%nat -> Ascii.eqb (digit_char d) "0" = false.
Proof.
  intros Hd Hz. destruct d as [|d]; [congruence|].
  do 9 (destruct d as [|d]; [reflexivity|]). lia.
Qed.

Lemma digits_string_app (a b : list nat) :
  digits_string (a ++ b) = digits_string a +:+ digits_string b.
Proof.
  induction a as [|x a IH]; [reflexivity|].
  cbn [app digits_string]. now rewrite append_cons, IH.
Qed.

Lemma count_dot_digits (ds : list nat) :
  Forall (fun d => (d < 10)%nat) ds -> count_char "." (digits_string ds) = 0%nat.
Proof.
  induction 1 as [|d ds Hd _ IH]; [reflexivity|].
  cbn [digits_string count_char]. now rewrite digit_char_not_dot, IH.
Qed.

Lemma count_dot_zeros (n : Z) : count_char "." (zeros n) = 0%nat.
Proof.
  unfold zeros. apply count_dot_digits, Forall_replicate. lia.
Qed.

Lemma ends_with_app (c : ascii) (a b : string) : ends_with c b -> ends_with c (a +:+ b).
Proof. intros [t ->]. exists (a +:+ t). now rewrite append_assoc. Qed.

Lemma drop_trailing_dot_keeps (c : ascii) (s : string) :
  Ascii.eqb c "." = false -> ends_with c s -> drop_trailing_dot s = s.
Proof.
  intros Hc [t ->]. induction t as [|x t IH].
  - change ("" +:+ String c "") with (String c ""). cbn [drop_trailing_dot].
    now rewrite Hc.
  - rewrite append_cons. cbn [drop_trailing_dot]. rewrite IH.
    destruct t; reflexivity.
Qed.

Lemma strip_suffix_dot0 (s : string) : strip_suffix (s +:+ ".0") ".0" = Some s.
Proof.
  induction s as [|x s IH]; [reflexivity|].
  rewrite append_cons. cbn [strip_suffix]. rewrite IH.
  destruct (String.eqb_spec (String x (s +:+ ".0")) ".0") as [E|_]; [|reflexivity].
  exfalso. destruct s as [|y s]; [discriminate E|].
  rewrite append_cons in E. injection E as _ _ E.
  destruct s; cbv in E; discriminate E.
Qed.

Lemma strip_suffix_other (c : ascii) (s : string) :
  Ascii.eqb c "0" = false -> ends_with c s -> strip_suffix s ".0" = None.
Proof.
  intros Hc [t ->]. induction t as [|x t IH].
  - change ("" +:+ String c "") with (String c "").
    cbn [strip_suffix String.eqb]. destruct (Ascii.eqb c "."); reflexivity.
  - rewrite append_cons. cbn [strip_suffix]. rewrite IH.
    destruct (String.eqb_spec (String x (t +:+ String c "")) ".0") as [E|_]; [|reflexivity].
    exfalso. destruct t as [|y t].
    + change ("" +:+ String c "") with (String c "") in E.
      injection E as _ E. subst c. discriminate Hc.
    + rewrite append_cons in E. injection E as _ _ E.
      destruct t; cbv in E; discriminate E.
Qed.

Lemma removesuffix_dot0 (s : string) : removesuffix (s +:+ ".0") ".0" = s.
Proof. unfold removesuffix. now rewrite strip_suffix_dot0. Qed.

Lemma removesuffix_other (c : ascii) (s : string) :
  Ascii.eqb c "0" = false -> ends_with c s -> removesuffix s ".0" = s.
Proof. intros Hc Hs. unfold removesuffix. now rewrite (strip_suffix_other c). Qed.

Lemma drop_trailing_dot_drops (s : string) : drop_trailing_dot (s +:+ ".") = s.
Proof.
  induction s as [|x s IH]; [reflexivity|].
  rewrite append_cons. cbn [drop_trailing_dot]. rewrite IH.
  destruct s; reflexivity.
Qed.

Lemma strip_suffix_Some (s suffix t : string) :
  strip_suffix s suffix = Some t -> s = t +:+ suffix.
Proof.
  revert t. induction s as [|x s IH]; intros t; cbn [strip_suffix].
  - destruct (String.eqb_spec "" suffix) as [<-|_]; [|discriminate].
    now intros [= <-].
  - destruct (String.eqb_spec (String x s) suffix) as [<-|_]; [now intros [= <-]|].
    destruct (strip_suffix s suffix) as [t'|]; [|discriminate].
    intros [= <-]. rewrite append_cons. f_equal. now apply IH.
Qed.

Lemma length_append (a b : string) :
  String.length (a +:+ b) = (String.length a + String.length b)%nat.
Proof.
  induction a as [|x a IH]; [reflexivity|]. rewrite append_cons. cbn [String.length].
  now rewrite IH.
Qed.

(** A string whose last two characters are in a tail without a dot does
    not end with [".0"]. *)
Lemma strip_suffix_no_dot (s tail : string) :
  count_char "." tail = 0%nat -> (2 <= String.length tail)%nat ->
  strip_suffix (s +:+ tail) ".0" = None.
Proof.
  intros Hdot Hlen.
  destruct (strip_suffix (s +:+ tail) ".0") as [t|] eqn:Hs; [exfalso | reflexivity].
  apply strip_suffix_Some in Hs. revert t Hs.
  induction s as [|x s IH]; intros t Hs.
  - change ("" +:+ tail) with tail in Hs. subst tail.
    rewrite count_char_app in Hdot.
    change (count_char "." ".0") with 1%nat in Hdot. lia.
  - destruct t as [|y t].
    + apply (f_equal String.length) in Hs.
      rewrite !length_append in Hs. cbn [String.length] in Hs. lia.
    + rewrite !append_cons in Hs. injection Hs as _ Hs. now apply (IH t).
Qed.

Lemma pretty_N_go_dots (x : N) (s : string) :
  count_char "." (pretty_N_go x s) = count_char "." s.
Proof.
  revert s. induction (N.lt_wf_0 x) as [x _ IH]; intros s.
  destruct (decide (x = 0%N)) as [->|Hx]; [now rewrite pretty_N_go_0|].
  rewrite pretty_N_go_step by lia. rewrite IH by (apply N.div_lt; lia).
  cbn [count_char].
  assert (H : Ascii.eqb "." (pretty_N_char (x `mod` 10)) = false)
    by (unfold pretty_N_char; repeat case_match; reflexivity).
  now rewrite H.
Qed.

Lemma pretty_N_go_length (x : N) (s : string) :
  (String.length s <= String.length (pretty_N_go x s))%nat /\
  ((0 < x)%N -> (String.length s < String.length (pretty_N_go x s))%nat).
Proof.
  revert s. induction (N.lt_wf_0 x) as [x _ IH]; intros s.
  destruct (decide (x = 0%N)) as [->|Hx]; [rewrite pretty_N_go_0; split; lia|].
  rewrite pretty_N_go_step by lia.
  destruct (IH (x `div` 10)%N ltac:(apply N.div_lt; lia)
               (String (pretty_N_char (x `mod` 10)) s)) as [Hle _].
  cbn [String.length] in Hle. split; lia.
Qed.

(** The exponent of a float in exponent notation: no dot, and at least a
    sign and a digit. *)
Lemma exp_string_tail (e : Z) :
  count_char "." (exp_string e) = 0%nat /\ (2 <= String.length (exp_string e))%nat.
Proof.
  assert (H : count_char "." (pretty (Z.abs e)) = 0%nat
              /\ (1 <= String.length (pretty (Z.abs e)))%nat).
  { destruct (Z.abs e) as [|p|p] eqn:Habs; [split; [reflexivity | cbn; lia] | | lia].
    unfold pretty, pretty_Z, pretty, pretty_positive, pretty, pretty_N.
    rewrite decide_False by discriminate. split.
    - apply pretty_N_go_dots.
    - destruct (pretty_N_go_length (N.pos p) "") as [_ H]. specialize (H eq_refl).
      cbn [String.length] in H. lia. }
  destruct H as [Hdot Hlen]. unfold exp_string.
  rewrite !count_char_app, !length_append, Hdot.
  destruct (e <? 0), (Z.abs e <? 10); cbn; split; lia.
Qed.

(** ** Whole numbers *)

Lemma digits_value_snoc (ds : list nat) (d : nat) :
  digits_value (ds ++ [d]) = 10 * digits_value ds + Z.of_nat d.
Proof. unfold digits_value. now rewrite foldl_snoc. Qed.

Lemma is_integer_iff (neg : bool) (ds : list nat) (d : nat) (decpt : Z) :
  (d < 10)%nat -> d <> 0%nat ->
  float_is_integer (FFin neg (ds ++ [d]) decpt) = true
  <-> Z.of_nat (length (ds ++ [d])) <= decpt.
Proof.
  intros Hd Hz. unfold float_is_integer.
  set (n := Z.of_nat (length (ds ++ [d]))).
  assert (Hn : 1 <= n) by (unfold n; rewrite length_app; simpl; lia).
  rewrite Z.eqb_eq. split.
  - intros Hmod. destruct (Z_lt_le_dec decpt n) as [Hlt|]; [exfalso | assumption].
    set (k := Z.max 0 decpt) in *.
    assert (Hk : 0 <= k < n) by lia.
    apply Z.mod_divide in Hmod; [|apply Z.pow_nonzero; lia].
    replace n with ((n - k) + k) in Hmod by lia.
    rewrite Z.pow_add_r in Hmod by lia.
    apply Z.mul_divide_cancel_r in Hmod; [|apply Z.pow_nonzero; lia].
    assert (H10 : (10 | digits_value (ds ++ [d]))).
    { eapply Z.divide_trans; [|exact Hmod].
      exists (10 ^ (n - k - 1)).
      replace (n - k) with (Z.succ (n - k - 1)) at 1 by lia.
      rewrite Z.pow_succ_r by lia. ring. }
    rewrite digits_value_snoc in H10.
    destruct H10 as [q Hq]. lia.
  - intros Hle. rewrite Z.max_r by lia.
    replace decpt with ((decpt - n) + n) at 1 by lia.
    rewrite Z.pow_add_r by lia. rewrite Z.mul_assoc. apply Z.mod_mul.
    apply Z.pow_nonzero; lia.
Qed.
Ltac zbool :=
  repeat match goal with
    | |- context [?a <=? ?b] =>
        first [rewrite (proj2 (Z.leb_le a b)) by lia | rewrite (proj2 (Z.leb_gt a b)) by lia]
    | |- context [?a <? ?b] =>
        first [rewrite (proj2 (Z.ltb_lt a b)) by lia | rewrite (proj2 (Z.ltb_ge a b)) by lia]
    end.

Ltac fixed_notation := zbool; cbn [orb negb andb]; zbool; cbn [orb negb andb]; zbool.

Ltac to_tail :=
  repeat match goal with |- ends_with _ (_ +:+ _) => apply ends_with_app end.


Lemma zeros_0 : zeros 0 = "".
Proof. reflexivity. Qed.

Lemma count_dot_sign (neg : bool) : count_char "." (if neg then "-" else "") = 0%nat.
Proof. destruct neg; reflexivity. Qed.

Lemma ends_with_last_digit (ds : list nat) (d : nat) :
  ends_with (digit_char d) (digits_string (ds ++ [d])).
Proof. exists (digits_string ds). apply digits_string_app. Qed.

(** The fixed-notation [repr] of a float with a fractional part: one dot,
    and the last character is the last digit. *)
Lemma float_repr_fraction (neg : bool) (ds : list nat) (d : nat) (decpt : Z) :
  Forall (fun d => (d < 10)%nat) (ds ++ [d]) ->
  -4 < decpt < Z.of_nat (length (ds ++ [d])) -> decpt <= 16 ->
  count_char "." (float_repr (FFin neg (ds ++ [d]) decpt)) = 1%nat /\
  ends_with (digit_char d) (float_repr (FFin neg (ds ++ [d]) decpt)).
Proof.
  intros Hall Hrange H16.
  assert (Hd : (d < 10)%nat).
  { apply Forall_app in Hall as [_ Hd]. now inversion Hd. }
  unfold float_repr. cbv zeta.
  set (n := Z.of_nat (length (ds ++ [d]))) in *.
  destruct (Z_le_gt_dec decpt 0) as [Hneg|Hpos].
  - fixed_notation.
    rewrite Z.sub_diag, zeros_0, append_nil_r.
    rewrite drop_trailing_dot_keeps with (c := digit_char d).
    + split.
      * rewrite !count_char_app, count_dot_sign, !count_dot_zeros, count_dot_digits by assumption.
        reflexivity.
      * to_tail. apply ends_with_last_digit.
    + rewrite Ascii.eqb_sym. now apply digit_char_not_dot.
    + to_tail. apply ends_with_last_digit.
  - fixed_notation.
    rewrite !Z.sub_diag, zeros_0, append_nil_r.
    change ((if neg then "-" else "") +:+ "" +:+ ?x)
      with ((if neg then "-" else "") +:+ x).
    assert (Hk : (Z.to_nat decpt <= length ds)%nat).
    { unfold n in Hrange. rewrite length_app in Hrange. simpl in Hrange. lia. }
    rewrite drop_app_le by assumption.
    rewrite drop_trailing_dot_keeps with (c := digit_char d).
    + split.
      * rewrite !count_char_app, count_dot_sign, !count_dot_digits.
        -- reflexivity.
        -- apply Forall_app; split; [|now constructor].
           apply Forall_drop. now apply Forall_app in Hall as [? _].
        -- now apply Forall_take.
      * to_tail. apply ends_with_last_digit.
    + rewrite Ascii.eqb_sym. now apply digit_char_not_dot.
    + to_tail. apply ends_with_last_digit.
Qed.

(** The fixed-notation [repr] of a whole float: digits, then [".0"]. *)
Lemma float_repr_whole (neg : bool) (ds : list nat) (decpt : Z) :
  Forall (fun d => (d < 10)%nat) ds ->
  0 < Z.of_nat (length ds) <= decpt -> decpt <= 16 ->
  exists p, float_repr (FFin neg ds decpt) = p +:+ ".0" /\ count_char "." p = 0%nat.
Proof.
  intros Hall Hrange H16.
  unfold float_repr. cbv zeta.
  set (n := Z.of_nat (length ds)) in *.
  destruct (Z_lt_le_dec n decpt) as [Hlt|Hge].
  - fixed_notation. change (zeros (0 - 0)) with "".
    replace (decpt + 1 - decpt) with 1 by lia.
    exists ((if neg then "-" else "") +:+ digits_string ds +:+ zeros (decpt - n)).
    rewrite (drop_trailing_dot_keeps "0").
    + split.
      * rewrite !append_assoc. reflexivity.
      * now rewrite !count_char_app, count_dot_sign, count_dot_zeros, count_dot_digits.
    + reflexivity.
    + to_tail. exists ""; reflexivity.
  - assert (decpt = n) as -> by lia.
    fixed_notation. change (zeros (0 - 0)) with "".
    replace (n + 1 - n) with 1 by lia.
    unfold n. rewrite Nat2Z.id, firstn_all, drop_all.
    exists ((if neg then "-" else "") +:+ digits_string ds).
    rewrite (drop_trailing_dot_keeps "0").
    + split.
      * rewrite !append_assoc. reflexivity.
      * now rewrite !count_char_app, count_dot_sign, count_dot_digits.
    + reflexivity.
    + to_tail. exists ""; reflexivity.
Qed.

(** ** The display form of numbers *)

(** [repr] in exponent notation: the digits with a dot after the first,
    then the exponent. *)
Lemma float_repr_exponent (neg : bool) (ds : list nat) (d : nat) (decpt : Z) :
  Forall (fun d => (d < 10)%nat) (ds ++ [d]) ->
  decpt <= -4 \/ 16 < decpt ->
  float_repr (FFin neg (ds ++ [d]) decpt)
  = (if neg then "-" else "") +:+ mantissa (ds ++ [d]) +:+ "e" +:+ exp_string (decpt - 1).
Proof.
  intros Hall Hrange.
  assert (Hd10 : (d < 10)%nat).
  { apply Forall_app in Hall as [_ H]. now inversion H. }
  unfold float_repr. cbv zeta.
  assert (Huse : (decpt <=? -4) || (16 <? decpt) = true).
  { apply orb_true_iff. destruct Hrange; [left; apply Z.leb_le | right; apply Z.ltb_lt]; lia. }
  rewrite Huse. cbn [negb].
  change (1 <=? 0) with false. change (0 <? 1) with true. cbn [andb].
  change (zeros (0 - 0)) with "". change (Z.to_nat 1) with 1%nat.
  destruct ds as [|d1 ds].
  - cbn [app length]. change (Z.of_nat 1) with 1.
    change (1 <? 1) with false. change (1 <=? 1) with true.
    cbn [take drop mantissa]. change (zeros (1 - 1)) with "".
    replace ((if neg then "-" else "") +:+ "" +:+ (digits_string [d] +:+ "." +:+ digits_string [])
             +:+ "")
      with (((if neg then "-" else "") +:+ digits_string [d]) +:+ ".")
      by (destruct neg; reflexivity).
    now rewrite drop_trailing_dot_drops, append_assoc.
  - change ((d1 :: ds) ++ [d]) with (d1 :: (ds ++ [d])).
    assert (Hlen : 1 < Z.of_nat (length (d1 :: (ds ++ [d])))).
    { cbn [length]. rewrite length_app. cbn [length]. lia. }
    zbool. cbn [take drop]. rewrite Z.sub_diag, zeros_0, append_nil_r.
    replace (mantissa (d1 :: (ds ++ [d])))
      with (digits_string [d1] +:+ "." +:+ digits_string (ds ++ [d]))
      by (destruct ds; reflexivity).
    change ((if neg then "-" else "") +:+ "" +:+ ?x) with ((if neg then "-" else "") +:+ x).
    rewrite drop_trailing_dot_keeps with (c := digit_char d).
    + now rewrite !append_assoc.
    + rewrite Ascii.eqb_sym. now apply digit_char_not_dot.
    + to_tail. apply ends_with_last_digit.
Qed.

Lemma count_dot_mantissa (ds : list nat) :
  Forall (fun d => (d < 10)%nat) ds -> ds <> [] ->
  count_char "." (mantissa ds) = if bool_decide (length ds = 1%nat) then 0%nat else 1%nat.
Proof.
  intros Hall Hne. destruct ds as [|d [|d' ds]].
  - contradiction.
  - cbn [mantissa]. now rewrite count_dot_digits.
  - rewrite bool_decide_eq_false_2 by discriminate.
    change (mantissa (d :: d' :: ds))
      with (digits_string [d] +:+ "." +:+ digits_string (d' :: ds)).
    inversion Hall as [|? ? Hd Hrest]; subst.
    rewrite !count_char_app, (count_dot_digits [d]), (count_dot_digits (d' :: ds)).
    + reflexivity.
    + exact Hrest.
    + constructor; [exact Hd | constructor].
Qed.

(** C8 (amended).  For every Number that Python writes in fixed notation
    (the decimal point position [decpt] of its shortest digit string
    satisfies [-4 < decpt <= 16], that is the number is zero or
    [1e-4 <= |x| < 1e16]), the display form holds no ['.'] when the number
    is whole and exactly one ['.'] when it is not.  Every other finite
    Number is displayed in exponent notation: the sign, the first digit, a
    ['.'] and the other digits when there are any, [e], and the exponent
    with its sign and at least two digits; it holds one ['.'] when the
    number has more than one significant digit and none otherwise, whole or
    not.  The infinities and nan are displayed as [inf], [-inf] and
    [nan]. *)
Theorem show_number_dots (h : list Obj) (x : PyFloat) :
  wf_float x ->
  exists s, show h (VNum x) = Some s /\
    match x with
    | FNan => s = "nan"
    | FInf neg => s = if neg then "-inf" else "inf"
    | FFin neg ds decpt =>
        if (decpt <=? -4) || (16 <? decpt)
        then s = (if neg then "-" else "") +:+ mantissa ds +:+ "e" +:+ exp_string (decpt - 1) /\
             count_char "." s = (if bool_decide (length ds = 1%nat) then 0%nat else 1%nat)
        else count_char "." s = (if float_is_integer x then 0%nat else 1%nat)
    end.
Proof.
  destruct x as [|neg|neg ds decpt].
  - intros _. exists "nan". split; reflexivity.
  - intros _. exists (if neg then "-inf" else "inf"). split; [|reflexivity].
    destruct neg; reflexivity.
  - intros [[Hall Hshape] Hzero].
    exists (removesuffix (float_repr (FFin neg ds decpt)) ".0").
    split; [reflexivity|].
    destruct ((decpt <=? -4) || (16 <? decpt)) eqn:Huse.
    + assert (Hrange : decpt <= -4 \/ 16 < decpt).
      { apply orb_true_iff in Huse as [H|H]; [left; now apply Z.leb_le | right; now apply Z.ltb_lt]. }
      destruct Hshape as [-> | (ds' & d & -> & Hd)]; [specialize (Hzero eq_refl); lia|].
      rewrite (float_repr_exponent neg ds' d decpt Hall Hrange).
      destruct (exp_string_tail (decpt - 1)) as [Hdot Hlen].
      assert (Hkeep : removesuffix ((if neg then "-" else "") +:+ mantissa (ds' ++ [d])
                                    +:+ "e" +:+ exp_string (decpt - 1)) ".0"
                      = (if neg then "-" else "") +:+ mantissa (ds' ++ [d])
                        +:+ "e" +:+ exp_string (decpt - 1)).
      { unfold removesuffix.
        replace ((if neg then "-" else "") +:+ mantissa (ds' ++ [d])
                 +:+ "e" +:+ exp_string (decpt - 1))
          with ((((if neg then "-" else "") +:+ mantissa (ds' ++ [d])) +:+ "e")
                +:+ exp_string (decpt - 1)) by now rewrite !append_assoc.
        now rewrite strip_suffix_no_dot. }
      rewrite Hkeep. split; [reflexivity|].
      rewrite !count_char_app, count_dot_sign, count_dot_mantissa, Hdot;
        [| exact Hall | now destruct ds'].
      change (count_char "." "e") with 0%nat. lia.
    + assert (Hrange : -4 < decpt <= 16).
      { apply orb_false_iff in Huse as [H1 H2].
        apply Z.leb_gt in H1. apply Z.ltb_ge in H2. lia. }
      destruct Hshape as [-> | (ds' & d & -> & Hd)].
      * rewrite Hzero by reflexivity. destruct neg; reflexivity.
      * assert (Hd10 : (d < 10)%nat).
        { apply Forall_app in Hall as [_ Hd10]. now inversion Hd10. }
        pose proof (is_integer_iff neg ds' d decpt Hd10 Hd) as Hint.
        destruct (Z_lt_le_dec decpt (Z.of_nat (length (ds' ++ [d])))) as [Hlt|Hge].
        -- destruct (float_is_integer (FFin neg (ds' ++ [d]) decpt)).
           { exfalso. apply (Z.lt_irrefl decpt).
             eapply Z.lt_le_trans; [exact Hlt | now apply Hint]. }
           destruct (float_repr_fraction neg ds' d decpt Hall) as [Hcount Hend]; [lia | lia |].
           rewrite (removesuffix_other (digit_char d)); auto using digit_char_not_zero.
        -- rewrite (proj2 Hint Hge).
           destruct (float_repr_whole neg (ds' ++ [d]) decpt Hall) as (p & -> & Hp).
           ++ rewrite length_app in *. simpl in *. lia.
           ++ lia.
           ++ now rewrite removesuffix_dot0.
Qed.

(** [3.5], and [1.5e16], which is whole and displayed as [1.5e+16]. *)
Lemma show_number_dots_witness :
  (exists s, show [] (VNum (FFin false [3; 5]%nat 1)) = Some s /\ count_char "." s = 1%nat) /\
  (exists s, show [] (VNum (FFin false [1; 5]%nat 17)) = Some s /\
             s = "1.5e+16" /\ count_char "." s = 1%nat).
Proof.
  split.
  - apply (show_number_dots [] (FFin false [3; 5]%nat 1)).
    split; [split|].
    + repeat constructor.
    + right. exists [3%nat], 5%nat. split; [reflexivity | discriminate].
    + discriminate.
  - apply (show_number_dots [] (FFin false [1; 5]%nat 17)).
    split; [split|].
    + repeat constructor.
    + right. exists [1%nat], 5%nat. split; [reflexivity | discriminate].
    + discriminate.
Defined.

(** C8 as stated fails outside of the fixed notation: [1.5e16] is a whole
    number displayed as [1.5e+16], with a dot, and [1e-05] is not whole and
    is displayed without one. *)
Lemma show_number_dots_counterexample :
  (float_is_integer (FFin false [1; 5]%nat 17) = true /\
   show [] (VNum (FFin false [1; 5]%nat 17)) = Some "1.5e+16" /\
   count_char "." "1.5e+16" = 1%nat) /\
  (float_is_integer (FFin false [1]%nat (-4)) = false /\
   show [] (VNum (FFin false [1]%nat (-4))) = Some "1e-05" /\
   count_char "." "1e-05" = 0%nat).
Proof. repeat split; reflexivity. Qed.

Example show_42 : show [] (VNum (FFin false [4; 2]%nat 2)) = Some "42".
Proof. reflexivity. Qed.
Example show_3_5 : show [] (VNum (FFin false [3; 5]%nat 1)) = Some "3.5".
Proof. reflexivity. Qed.
Example show_minus_zero : show [] (VNum (FFin true [0]%nat 1)) = Some "-0".
Proof. reflexivity. Qed.

(** [repr] on sample floats. *)
Example float_repr_42 : float_repr (FFin false [4;2]%nat 2) = "42.0".
Proof. reflexivity. Qed.
Example float_repr_3_5 : float_repr (FFin false [3;5]%nat 1) = "3.5".
Proof. reflexivity. Qed.
Example float_repr_100 : float_repr (FFin false [1]%nat 3) = "100.0".
Proof. reflexivity. Qed.
Example float_repr_0_001 : float_repr (FFin true [1;2;5]%nat (-2)) = "-0.00125".
Proof. reflexivity. Qed.
Example float_repr_1e16 : float_repr (FFin false [1]%nat 17) = "1e+16".
Proof. reflexivity. Qed.
Example float_repr_1_5e16 : float_repr (FFin false [1;5]%nat 17) = "1.5e+16".
Proof. reflexivity. Qed.
Example float_repr_1e_05 : float_repr (FFin false [1]%nat (-4)) = "1e-05".
Proof. reflexivity. Qed.
Example float_repr_1e100 : float_repr (FFin false [1;2]%nat 101) = "1.2e+100".
Proof. reflexivity. Qed.
Example float_repr_zero : float_repr (FFin false [0]%nat 1) = "0.0".
Proof. reflexivity. Qed.

(** ** Short-circuit evaluation *)

(** C2.  [Or] evaluates its left operand first.  When the value is truthy
    (anything but nil and false, so also the number 0 and the empty string)
    the expression evaluates to that very value, in the state the left
    operand left: the right operand is not evaluated.  Otherwise the right
    operand is evaluated from that state and gives the value.  The program
    [print 0 or "hi";] prints [0] and [print nil or "hi";] prints [hi]. *)
Theorem Or_short_circuit (host : Host) :
  (forall (n : nat) (left_ right_ : Expr) (ctx : addr) (st : State),
     eval_expr host (S n) (Or left_ right_) ctx st =
     match eval_expr host n left_ ctx st with
     | Ok left_val st1 =>
         if truthy left_val then Ok left_val st1 else eval_expr host n right_ ctx st1
     | Raise e st1 => Raise e st1
     | Undefined w => Undefined w
     end) /\
  (forall v, truthy v = false <-> v = VNil \/ v = VBool false) /\
  truthy (VNum zero) = true /\ truthy (VStr "") = true /\
  (forall k, printed (run host (4 + k)
               [Print (Or (Literal (VNum zero)) (Literal (VStr "hi")))]) = Some ["0"]) /\
  (forall k, printed (run host (4 + k)
               [Print (Or (Literal VNil) (Literal (VStr "hi")))]) = Some ["hi"]).
Proof.
  split; [|split; [|split; [|split; [|split]]]]; try reflexivity.
  - intros n left_ right_ ctx st. cbn [eval_expr].
    destruct (eval_expr host n left_ ctx st) as [v st1| |]; try reflexivity.
    cbn [bind]. destruct v as [|[]|x|s|a]; try reflexivity.
    + cbn. destruct (float_is_zero x); reflexivity.
    + cbn. destruct (bool_decide (s = "")); reflexivity.
  - intros v. split.
    + destruct v as [|[]|x|s|a]; cbn; intros; try discriminate; auto.
    + intros [-> | ->]; reflexivity.
Qed.

(** ** Calls *)

(** C10.  With a callee that evaluates to a non-callable value, the
    arguments are evaluated first, left to right from the state the callee
    left; only then is [TypeError] ("is not a function") raised, in the
    state the last argument left.  An argument that fails raises its own
    error instead. *)
Theorem Call_checks_callee_last (host : Host) (n : nat) (callee : Expr)
    (params : list Expr) (ctx : addr) (st st1 : State) (func : Value) :
  eval_expr host n callee ctx st = Ok func st1 ->
  (forall args st2 t s,
     eval_params host n params ctx st1 = Ok args st2 ->
     type_of (heap st2) func = Some t -> callable t = false ->
     py_str (heap st2) func = Some s ->
     eval_expr host (S n) (Call callee params) ctx st
     = Raise (TypeError ("'" +:+ s +:+ "' não é uma função!")) st2) /\
  (forall e st2,
     eval_params host n params ctx st1 = Raise e st2 ->
     eval_expr host (S n) (Call callee params) ctx st = Raise e st2) /\
  (forall m param rest c s,
     eval_params host (S m) (param :: rest) c s
     = let* (v, s1) := eval_expr host m param c s in
       let* (vs, s2) := eval_params host m rest c s1 in
       Ok (v :: vs) s2).
Proof.
  intros Hcallee. split; [|split].
  - intros args st2 t s Hargs Ht Hcall Hs.
    cbn [eval_expr]. rewrite Hcallee. cbn [bind]. rewrite Hargs. cbn [bind].
    rewrite Ht, Hcall. unfold not_a_function. now rewrite Hs.
  - intros e st2 Hargs.
    cbn [eval_expr]. rewrite Hcallee. cbn [bind]. now rewrite Hargs.
  - reflexivity.
Qed.

(** [fun p(x) { print x; }] then [nil(p(1), p(2));]: both arguments print
    before the call fails. *)
Lemma Call_checks_callee_last_witness :
  let decls := [FunctionDecl (MkFunction "p" ["x"] [Print (Var "x")])] in
  let st := state_after bare_host decls in
  exists st2,
    eval_expr bare_host 13
      (Call (Literal VNil) [Call (Var "p") [number 1]; Call (Var "p") [number 2]])
      global_ctx st
    = Raise (TypeError "'None' não é uma função!") st2 /\
    stdout st2 = ["1"; "2"].
Proof.
  intros decls st.
  destruct (Call_checks_callee_last bare_host 12 (Literal VNil)
              [Call (Var "p") [number 1]; Call (Var "p") [number 2]]
              global_ctx st st VNil eq_refl) as [H _].
  eexists. split.
  - eapply (H _ _ TNone "None"); [vm_compute; reflexivity | reflexivity ..].
  - reflexivity.
Defined.

(** ** Attribute assignment *)

(** C7 (amended).  [Setattr] evaluates the object, then the value.  On an
    instance it stores the value in the field map and evaluates to it; on a
    class or a function it raises [LoxError] ("Apenas instâncias podem ter
    campos.", only instances can have fields); on nil, a boolean, a number
    or a string the assignment is left to Python's [setattr], which stores
    nothing and raises an error of its own: [TypeError] for the name
    [__class__], [AttributeError] for every other name. *)
Theorem Setattr_by_receiver (host : Host) (n : nat) (obj value : Expr) (name : string)
    (ctx : addr) (st st1 st2 : State) (obj_val val : Value) (t : PyType) :
  eval_expr host n obj ctx st = Ok obj_val st1 ->
  eval_expr host n value ctx st1 = Ok val st2 ->
  type_of (heap st2) obj_val = Some t ->
  (t = TLoxInstance ->
   exists a klass fields,
     obj_val = VObj a /\ heap st2 !! a = Some (LoxInstance klass fields) /\
     eval_expr host (S n) (Setattr obj name value) ctx st
     = Ok val (store a (LoxInstance klass (<[name := val]> fields)) st2)) /\
  (t = TLoxClass \/ t = TLoxFunction \/ t = TLoxInitFunction ->
   eval_expr host (S n) (Setattr obj name value) ctx st
   = Raise (LoxError "Apenas instâncias podem ter campos.") st2) /\
  (t = TNone \/ t = TBool \/ t = TFloat \/ t = TStr ->
   eval_expr host (S n) (Setattr obj name value) ctx st
   = Raise (if decide (name = "__class__") then HostTypeError else HostAttributeError) st2).
Proof.
  intros Hobj Hval Ht.
  cbn [eval_expr]. rewrite Hobj. cbn [bind]. rewrite Hval. cbn [bind].
  destruct obj_val as [| | | |a]; rewrite Ht; cbn in Ht.
  1-4: injection Ht as <-; repeat split; try discriminate;
       try (intros [E | [E | E]]; discriminate E);
       intros _; unfold py_setattr; destruct (decide (name = "__class__")); reflexivity.
  destruct (heap st2 !! a) as [o|] eqn:Ha; [|discriminate Ht].
  injection Ht as <-. split; [|split].
  - intros Ho. destruct o; try discriminate Ho.
    exists a, klass, fields. split; [reflexivity|]. split; [exact Ha|].
    unfold set_field. rewrite Ha. reflexivity.
  - intros [Ho | [Ho | Ho]]; destruct o; try discriminate Ho; reflexivity.
  - intros [Ho | [Ho | [Ho | Ho]]]; destruct o; discriminate Ho.
Qed.

(** [1.x = 2] and [1.__class__ = 2]. *)
Lemma Setattr_by_receiver_witness :
  eval_expr bare_host 2 (Setattr (number 1) "x" (number 2)) global_ctx init_state
  = Raise HostAttributeError init_state /\
  eval_expr bare_host 2 (Setattr (number 1) "__class__" (number 2)) global_ctx init_state
  = Raise HostTypeError init_state.
Proof.
  split.
  - apply (Setattr_by_receiver bare_host 1 (number 1) (number 2) "x" global_ctx
             init_state init_state init_state _ _ TFloat eq_refl eq_refl eq_refl).
    right. right. left. reflexivity.
  - apply (Setattr_by_receiver bare_host 1 (number 1) (number 2) "__class__" global_ctx
             init_state init_state init_state _ _ TFloat eq_refl eq_refl eq_refl).
    right. right. left. reflexivity.
Defined.

(** [1.x = 2] is refused by Python, whatever the host. *)
Lemma Setattr_number (host : Host) (k : nat) :
  eval_expr host (2 + k) (Setattr (number 1) "x" (number 2)) global_ctx init_state
  = Raise HostAttributeError init_state.
Proof. reflexivity. Qed.

(** C7 as stated: every receiver that is no instance is refused with the
    error of classes and functions.  That holds for no host: a number is
    refused by Python's [setattr] instead. *)
Lemma Setattr_number_counterexample :
  ~ exists host : Host,
      forall (n : nat) (obj value : Expr) (name : string) (ctx : addr)
             (st st1 st2 : State) (obj_val val : Value) (t : PyType),
        eval_expr host n obj ctx st = Ok obj_val st1 ->
        eval_expr host n value ctx st1 = Ok val st2 ->
        type_of (heap st2) obj_val = Some t ->
        t <> TLoxInstance ->
        eval_expr host (S n) (Setattr obj name value) ctx st
        = Raise (LoxError "Apenas instâncias podem ter campos.") st2.
Proof.
  intros [host H].
  assert (Hne : TFloat <> TLoxInstance) by discriminate.
  specialize (H 1%nat (number 1) (number 2) "x" global_ctx
                init_state init_state init_state _ _ TFloat eq_refl eq_refl eq_refl Hne).
  pose proof (Setattr_number host 0) as E. cbn [Nat.add] in E.
  rewrite E in H. discriminate H.
Qed.

(** ** Attribute access *)

(** C9 does not hold of the code.  [fun f() {}] then [print f.name;]
    prints [f]: [Getattr.eval] hands a function to Python's [getattr],
    which finds the dataclass field [name] of the [LoxFunction] object.
    The claim asks for an error, which is what the branch for classes of
    [Getattr.eval] and [Setattr.eval] on a function do give. *)
Theorem Getattr_function_name (host : Host) :
  (forall (n : nat) (obj : Expr) (ctx : addr) (st st1 : State) (f : addr)
          (fname : string) (params : list string) (body : list Stmt) (fctx : addr),
     eval_expr host n obj ctx st = Ok (VObj f) st1 ->
     heap st1 !! f = Some (LoxFunction fname params body fctx) ->
     eval_expr host (S n) (Getattr obj "name") ctx st = Ok (VStr fname) st1) /\
  (forall k, printed (run host (5 + k)
               [FunctionDecl (MkFunction "f" [] []); Print (Getattr (Var "f") "name")])
             = Some ["f"]).
Proof.
  split; [|reflexivity].
  intros n obj ctx st st1 f fname params body fctx Hobj Hf.
  cbn [eval_expr]. rewrite Hobj. cbn [bind type_of]. rewrite Hf.
  cbn [fmap option_fmap option_map type_of_obj getattr]. rewrite Hf.
  reflexivity.
Qed.

(** What C9 says does hold for the names that Python's lookup does not find
    on the value: on nil, a boolean, a number, a string or a function,
    [Getattr] raises [AttributeError] ("O objeto V não possui o atributo
    'NAME'", the object has no such attribute). *)
Lemma Getattr_other_kinds (host : Host) (n : nat) (obj : Expr) (name : string)
    (ctx : addr) (st st1 : State) (v : Value) (t : PyType) (s : string) :
  eval_expr host n obj ctx st = Ok v st1 ->
  type_of (heap st1) v = Some t ->
  other_kind t = true ->
  name ∉ declared_attrs t ->
  py_getattr host t v name = HostMiss ->
  py_str (heap st1) v = Some s ->
  eval_expr host (S n) (Getattr obj name) ctx st
  = Raise (AttributeError ("O objeto " +:+ s +:+ " não possui o atributo '"
                           +:+ name +:+ "'")) st1.
Proof.
  intros Hobj Ht Hkind Hname Hmiss Hs.
  cbn [eval_expr]. rewrite Hobj. cbn [bind].
  destruct v as [| | | |a]; rewrite Ht; cbn in Ht.
  1-4: injection Ht as <-; cbn [getattr]; unfold host_lookup; rewrite Hmiss;
       cbn [is_AttributeError]; unfold no_attribute; now rewrite Hs.
  destruct (heap st1 !! a) as [o|] eqn:Ha; [|discriminate Ht].
  injection Ht as <-.
  destruct o; cbn [type_of_obj] in *; try discriminate Hkind.
  - cbn [getattr]. rewrite Ha.
    apply not_elem_of_cons in Hname as [Hn Hrest].
    rewrite decide_False by exact Hn.
    rewrite bool_decide_eq_false_2 by exact Hrest.
    unfold host_lookup. rewrite Hmiss.
    cbn [is_AttributeError]; unfold no_attribute; now rewrite Hs.
  - cbn [getattr]. rewrite Ha.
    apply not_elem_of_cons in Hname as [Hn Hname].
    apply not_elem_of_cons in Hname as [Hi Hrest].
    rewrite !decide_False by assumption.
    rewrite bool_decide_eq_false_2 by exact Hrest.
    unfold host_lookup. rewrite Hmiss.
    cbn [is_AttributeError]; unfold no_attribute; now rewrite Hs.
Qed.

Example Getattr_str_size :
  eval_expr bare_host 2 (Getattr (Literal (VStr "abc")) "size") global_ctx init_state
  = Raise (AttributeError "O objeto abc não possui o atributo 'size'") init_state.
Proof. reflexivity. Qed.

(** ** The store *)

Lemma snoc_fresh (h : list Obj) : h !! length h = None.
Proof. apply lookup_ge_None_2. lia. Qed.

Lemma snoc_new (h : list Obj) (o : Obj) : (h ++ [o]) !! length h = Some o.
Proof. rewrite lookup_app_r by lia. now rewrite Nat.sub_diag. Qed.

Lemma snoc_old (h : list Obj) (o o' : Obj) (a : addr) :
  h !! a = Some o' -> (h ++ [o]) !! a = Some o'.
Proof. apply lookup_app_l_Some. Qed.

(** ** Classes, [init] and instances *)

(** C3 (amended).  Calling a class makes a fresh instance of it; when
    [init] resolves through the class chain, it is bound to the instance (a
    frame [{"this": instance}] on top of its context) and called with the
    arguments, and whatever that call returns, the class call evaluates to
    the instance.  Looking [init] up on an instance that has no field named
    [init] gives a [LoxInitFunction] over the bound method, and calling it
    evaluates to the instance whatever the body returns. *)
Theorem init_returns_the_instance (host : Host) :
  (forall (n : nat) (self instance init bound : addr) (args : list Value)
          (st st1 st3 st4 : State) (r : Value),
     type_of (heap st) (VObj self) = Some TLoxClass ->
     alloc (LoxInstance self ∅) st = (instance, st1) ->
     get_method self "init" st1 = Ok init st1 ->
     LoxFunction_bind init (VObj instance) st1 = Ok bound st3 ->
     call host n (VObj bound) args st3 = Ok r st4 ->
     call host (S n) (VObj self) args st = Ok (VObj instance) st4 /\
     heap st !! instance = None /\
     heap st1 !! instance = Some (LoxInstance self ∅) /\
     exists name params body c fctx,
       heap st3 !! bound = Some (LoxFunction name params body c) /\
       heap st3 !! c = Some (Ctx {["this" := VObj instance]} (Some fctx))) /\
  (forall (n : nat) (obj : Expr) (ctx i klass method mctx : addr)
          (fields : gmap string Value) (st st1 : State)
          (mname : string) (mparams : list string) (mbody : list Stmt),
     eval_expr host n obj ctx st = Ok (VObj i) st1 ->
     heap st1 !! i = Some (LoxInstance klass fields) ->
     fields !! "init" = None ->
     py_getattr host TLoxInstance (VObj i) "init" = HostMiss ->
     get_method klass "init" st1 = Ok method st1 ->
     heap st1 !! method = Some (LoxFunction mname mparams mbody mctx) ->
     exists f c st3,
       eval_expr host (S n) (Getattr obj "init") ctx st = Ok (VObj f) st3 /\
       heap st3 !! f = Some (LoxInitFunction mname mparams mbody c i) /\
       heap st3 !! c = Some (Ctx {["this" := VObj i]} (Some mctx))) /\
  (forall (n : nat) (f fctx i : addr) (name : string) (params : list string)
          (body : list Stmt) (args : list Value) (st st' : State) (r : Value),
     heap st !! f = Some (LoxInitFunction name params body fctx i) ->
     LoxFunction_call host n name params body fctx args st = Ok r st' ->
     call host (S n) (VObj f) args st = Ok (VObj i) st').
Proof.
  split; [|split].
  - intros n self instance init bound args st st1 st3 st4 r Hself Halloc Hinit Hbind Hcall.
    cbn in Hself. destruct (heap st !! self) as [o|] eqn:Ho; [|discriminate Hself].
    destruct o; try discriminate Hself.
    split; [|split; [|split]].
    + cbn [call]. rewrite Ho, Halloc, Hinit. cbn [bind]. rewrite Hbind. cbn [bind].
      now rewrite Hcall.
    + injection Halloc as <- <-. apply snoc_fresh.
    + injection Halloc as <- <-. apply snoc_new.
    + unfold LoxFunction_bind in Hbind.
      destruct (heap st1 !! init) as [[fname params body c | fname params body c j | | |]|];
        try discriminate Hbind.
      all: injection Hbind as <- <-.
      all: exists fname, params, body, (length (heap st1)), c.
      all: cbn [heap set_heap].
      all: split; [apply snoc_new | apply snoc_old, snoc_new].
  - intros n obj ctx i klass method mctx fields st st1 mname mparams mbody
           Hobj Hi Hfield Hhost Hmethod Hm.
    eexists _, _, _. split; [|split].
    + cbn [eval_expr]. rewrite Hobj. cbn [bind type_of]. rewrite Hi.
      cbn [fmap option_fmap option_map type_of_obj getattr]. rewrite Hi.
      rewrite decide_False by discriminate.
      rewrite bool_decide_eq_false_2
        by (intros H; repeat (apply elem_of_cons in H as [H|H]; [discriminate H|]);
            now apply elem_of_nil in H).
      unfold host_lookup. rewrite Hhost. unfold LoxInstance_getattr.
      rewrite Hi, Hfield, Hmethod. cbn [bind]. rewrite decide_True by reflexivity.
      unfold LoxFunction_bind. rewrite Hm. cbn [ctx_push alloc bind fst snd heap set_heap].
      rewrite snoc_new. reflexivity.
    + cbn [heap set_heap]. apply snoc_new.
    + cbn [heap set_heap]. apply snoc_old, snoc_old, snoc_new.
  - intros n f fctx i name params body args st st' r Hf Hcall.
    cbn [call]. rewrite Hf, Hcall. reflexivity.
Qed.

(** [P(4)] in the state after the declaration of [P], where the class is the
    object at address 2 and the new instance gets address 3. *)
Lemma init_returns_the_instance_witness :
  exists st4, call bare_host 12 (VObj 2%nat) [VNum (FFin false [4%nat] 1)]
                (state_after bare_host [class_P])
              = Ok (VObj 3%nat) st4.
Proof.
  edestruct (proj1 (init_returns_the_instance bare_host) 11%nat 2%nat) as [H _];
    [| | | | | eexists; exact H].
  - reflexivity.
  - reflexivity.
  - vm_compute. reflexivity.
  - vm_compute. reflexivity.
  - vm_compute. reflexivity.
Defined.

(** C3 as stated: looking [init] up on an instance and calling it always
    evaluates to the instance.  After [fun g() { return 1; }],
    [var p = P(4);] and [p.init = g;] the instance has a field named
    [init], which [__getattr__] returns before it looks for a method:
    [p.init()] calls [g] and evaluates to 1, and [print p.init();] prints
    [1], although [init] still resolves through the class of [p]. *)
Lemma init_field_counterexample :
  exists (st st' : State) (i klass method : addr) (fields : gmap string Value),
    eval_program bare_host 20
      [class_P;
       FunctionDecl (MkFunction "g" [] [Return (Some (number 1))]);
       VarDef "p" (Call (Var "P") [number 4]);
       ExprStmt (Setattr (Var "p") "init" (Var "g"))] global_ctx init_state
    = Ok tt st /\
    eval_expr bare_host 20 (Var "p") global_ctx st = Ok (VObj i) st /\
    heap st !! i = Some (LoxInstance klass fields) /\
    get_method klass "init" st = Ok method st /\
    eval_expr bare_host 20 (Call (Getattr (Var "p") "init") []) global_ctx st
    = Ok (VNum (FFin false [1%nat] 1)) st' /\
    VNum (FFin false [1%nat] 1) <> VObj i /\
    printed (run bare_host 30
               [class_P;
                FunctionDecl (MkFunction "g" [] [Return (Some (number 1))]);
                VarDef "p" (Call (Var "P") [number 4]);
                ExprStmt (Setattr (Var "p") "init" (Var "g"));
                Print (Call (Getattr (Var "p") "init") [])])
    = Some ["1"].
Proof.
  eexists _, _, _, _, _, _.
  split; [vm_compute; reflexivity|].
  split; [vm_compute; reflexivity|].
  split; [vm_compute; reflexivity|].
  split; [vm_compute; reflexivity|].
  split; [vm_compute; reflexivity|].
  split; [discriminate | vm_compute; reflexivity].
Qed.

(** [var p = P(42); print p.x; print p.init(7); print p.x;]: both the class
    call and the call of [p.init] give the instance, although the body of
    [init] returns 5. *)
Example init_program :
  printed (run bare_host 20
             [class_P;
              VarDef "p" (Call (Var "P") [Literal (VNum (FFin false [4; 2]%nat 2))]);
              Print (Getattr (Var "p") "x");
              Print (Call (Getattr (Var "p") "init") [number 7]);
              Print (Getattr (Var "p") "x")])
  = Some ["42"; "P instance"; "7"].
Proof. vm_compute. reflexivity. Qed.

(** [class A { greet() { print "A"; } }],
    [class B < A { greet() { super.greet(); print "B"; } }] and
    [B().greet();] *)
Example super_program :
  printed (run bare_host 20
             [Class "A" [MkFunction "greet" [] [Print (Literal (VStr "A"))]] None;
              Class "B" [MkFunction "greet" []
                           [ExprStmt (Call (Super "greet") []);
                            Print (Literal (VStr "B"))]] (Some "A");
              ExprStmt (Call (Getattr (Call (Var "B") []) "greet") [])])
  = Some ["A"; "B"].
Proof. vm_compute. reflexivity. Qed.

(** ** Validation *)

Lemma first_error_None (a b : option SemanticError) :
  first_error a b = None <-> a = None /\ b = None.
Proof. destruct a, b; cbn; intuition congruence. Qed.

Lemma first_of_None {A : Type} (f : A -> option SemanticError) (l : list A) :
  first_of f l = None <-> forall x, x ∈ l -> f x = None.
Proof.
  induction l as [|y l IH]; cbn.
  - split; [intros _ x Hx; now apply elem_of_nil in Hx | reflexivity].
  - rewrite first_error_None, IH. split.
    + intros [Hy Hl] x Hx. apply elem_of_cons in Hx as [-> | Hx]; auto.
    + intros H. split; [apply H; left | intros x Hx; apply H; now right].
Qed.

Lemma first_of_fmap {A B : Type} (g : A -> B) (f : B -> option SemanticError) (l : list A) :
  first_of f (g <$> l) = first_of (fun x => f (g x)) l.
Proof. induction l as [|y l IH]; cbn; [reflexivity | now rewrite IH]. Qed.

Lemma first_of_app {A : Type} (f : A -> option SemanticError) (l k : list A) :
  first_of f (l ++ k) = first_error (first_of f l) (first_of f k).
Proof.
  induction l as [|y l IH]; cbn; [reflexivity|].
  rewrite IH. destruct (f y); reflexivity.
Qed.

Lemma first_error_None_r (a : option SemanticError) : first_error a None = a.
Proof. destruct a; reflexivity. Qed.

Lemma validate_method_stmt (c : Cursor) (f : Function) :
  validate_method c f = validate_stmt c (FunctionDecl f).
Proof. destruct f. reflexivity. Qed.

Lemma validate_methods_stmts (c : Cursor) (methods : list Function) :
  first_of (validate_method c) methods
  = first_of (fun m => validate_node c (StmtNode (FunctionDecl m))) methods.
Proof.
  induction methods as [|m ms IH]; cbn [first_of]; [reflexivity|].
  cbn [first_of] in IH. rewrite IH. cbn [validate_node]. now rewrite validate_method_stmt.
Qed.

(** The walk visits a node, then its children under the extended cursor. *)
Lemma validate_node_children (c : Cursor) (n : Node) :
  validate_node c n
  = first_error (validate_self c n) (first_of (validate_node (n :: c)) (children n)).
Proof.
  destruct n as [program | e | s].
  - cbn [validate_node validate_self children first_error].
    now rewrite first_of_fmap.
  - destruct e; cbn [validate_node validate_expr children first_of];
      rewrite ?first_error_None_r; try reflexivity.
    now rewrite first_of_fmap.
  - destruct s as [e | e | [e|] | name e | c0 t e | c0 b | stmts | f | name methods base];
      cbn [validate_node validate_stmt children first_of];
      rewrite ?first_error_None_r; try reflexivity.
    + now rewrite first_of_fmap.
    + f_equal. rewrite first_of_app, !first_of_fmap.
      replace (first_of _ (fn_params f)) with (@None SemanticError)
        by (symmetry; now apply first_of_None).
      destruct f. cbn [first_error first_of fn_body validate_node validate_stmt validate_body].
      now rewrite first_error_None_r.
    + f_equal. rewrite first_of_app, !first_of_fmap.
      replace (first_of _ (match base with Some b => _ | None => _ end))
        with (@None SemanticError) by (now destruct base).
      rewrite first_error_None_r. apply validate_methods_stmts.
Qed.

(** A program that passes validation passes [validate_self] at every node,
    under the cursor of the nodes that enclose it. *)
Lemma validate_sound (root : Node) (c : Cursor) (n : Node) :
  validate_node [] root = None -> occurs root c n -> validate_node c n = None.
Proof.
  intros Hroot Hocc. induction Hocc as [|c n n' _ IH Hchild]; [assumption|].
  rewrite validate_node_children in IH. apply first_error_None in IH as [_ IH].
  now apply (proj1 (first_of_None _ _) IH).
Qed.

Lemma not_scoped (kind : Node -> bool) (c : Cursor) :
  (forall n, n ∈ c -> kind n = false) -> is_scoped_to kind c = false.
Proof.
  intros H. unfold is_scoped_to. induction c as [|x c IH]; [reflexivity|].
  cbn. rewrite H by left. apply IH. intros n Hn. apply H. now right.
Qed.

Lemma class_scope_nearest (inner outer : Cursor) (cls : Node) :
  (forall n, n ∈ inner -> is_Class_node n = false) -> is_Class_node cls = true ->
  class_scope (inner ++ cls :: outer) = Some cls /\
  is_scoped_to is_Class_node (inner ++ cls :: outer) = true.
Proof.
  intros Hinner Hcls. unfold class_scope, is_scoped_to.
  induction inner as [|x inner IH]; cbn.
  - now rewrite Hcls.
  - rewrite Hinner by left. apply IH. intros n Hn. apply Hinner. now right.
Qed.

(** C5 (amended).  A program in which [return] occurs outside of every function,
    [this] outside of every class, or [super] in a class without a
    superclass, does not pass validation: [validate] answers a
    [SemanticError], and the pipeline rejects the program without
    evaluating anything. *)
Theorem validate_rejects_misuse (program : Program) :
  misuse program ->
  exists e, validate program = Some e /\
            forall host fuel, run host fuel program = Rejected e.
Proof.
  intros Hmis.
  destruct (validate program) as [e|] eqn:Hval.
  - exists e. split; [reflexivity|]. intros host fuel. unfold run. now rewrite Hval.
  - exfalso. unfold validate in Hval.
    destruct Hmis as [c value Hocc Hc | c Hocc Hc | inner outer name cname methods Hocc Hc];
      pose proof (validate_sound _ _ _ Hval Hocc) as Hnode;
      rewrite validate_node_children in Hnode;
      apply first_error_None in Hnode as [Hself _]; cbn [validate_self] in Hself.
    + unfold Return_validate_self in Hself. now rewrite not_scoped in Hself.
    + unfold This_validate_self in Hself. now rewrite not_scoped in Hself.
    + unfold Super_validate_self in Hself.
      destruct (class_scope_nearest inner outer (StmtNode (Class cname methods None)) Hc eq_refl)
        as [Hscope Hscoped].
      rewrite Hscoped, Hscope in Hself. discriminate Hself.
Qed.

(** [return 1;] at top level. *)
Lemma validate_rejects_misuse_witness :
  exists e, validate [Return (Some (number 1))] = Some e /\
            forall host fuel, run host fuel [Return (Some (number 1))] = Rejected e.
Proof.
  apply validate_rejects_misuse.
  apply (return_outside_function _ [ProgramNode [Return (Some (number 1))]] (Some (number 1))).
  - apply occurs_child; [apply occurs_root | left].
  - intros n Hn. apply elem_of_cons in Hn as [-> | Hn]; [reflexivity|].
    now apply elem_of_nil in Hn.
Defined.

Example validate_top_level_return :
  validate [Return (Some (number 1))]
  = Some (MkSemanticError "Can't return from top-level code." "return").
Proof. reflexivity. Qed.

(** [class X { m() { print super.m(); } }] *)
Example validate_super_without_superclass :
  validate [Class "X" [MkFunction "m" [] [Print (Call (Super "m") [])]] None]
  = Some (MkSemanticError "Can't use 'super' in a class with no superclass." "super").
Proof. reflexivity. Qed.

(** [class A { m() { return this; } }] passes. *)
Example validate_method_ok :
  validate [Class "A" [MkFunction "m" [] [Return (Some This)]] None] = None.
Proof. reflexivity. Qed.

(** C5 as stated: in a program that passes validation the lookup of [this]
    at run time cannot fail.  [class A { m() { return this; } }] followed
    by [A.m();] passes validation; [Getattr] on a class gives the method as
    [get_method] finds it, not bound to any instance, and the call
    evaluates [this] in a chain of frames that does not define it:
    [NameError] ("variável this não existe!"), at run time. *)
Lemma validated_this_counterexample :
  validate [Class "A" [MkFunction "m" [] [Return (Some This)]] None;
            ExprStmt (Call (Getattr (Var "A") "m") [])] = None /\
  exists st,
    run bare_host 20 [Class "A" [MkFunction "m" [] [Return (Some This)]] None;
                      ExprStmt (Call (Getattr (Var "A") "m") [])]
    = Executed (Raise (NameError "variável this não existe!") st).
Proof. split; [reflexivity | eexists; vm_compute; reflexivity]. Qed.

(** ** Where the code departs from the specification *)

(** C1 does not hold of the code.  [class A {}] then [print A() == A();]
    prints [true]: the two instances are different objects, and [eq] falls
    through to the [__eq__] that [@dataclass] generates for [LoxInstance],
    which compares the class and the field maps. *)
Theorem eq_distinct_instances (host : Host) (k : nat) :
  printed (run host (8 + k)
             [Class "A" [] None;
              Print (BinOp (Call (Var "A") []) (Call (Var "A") []) op_eq)])
  = Some ["true"] /\
  (let h := [Ctx ∅ None; LoxClass "A" ∅ None; LoxInstance 1%nat ∅; LoxInstance 1%nat ∅] in
   VObj 2%nat <> VObj 3%nat /\ lox_eq (3 + k) h (VObj 2%nat) (VObj 3%nat) = Some true).
Proof.
  split; [reflexivity|]. split; [discriminate | reflexivity].
Qed.

(** The part of C1 that the code does implement: values of different Python
    classes are never equal, and within nil, booleans, numbers and strings
    equality is by value. *)
Lemma eq_distinct_types (n : nat) (h : list Obj) (a b : Value) (ta tb : PyType) :
  type_of h a = Some ta -> type_of h b = Some tb -> ta <> tb ->
  lox_eq n h a b = Some false.
Proof.
  intros Ha Hb Hne. unfold lox_eq. rewrite Ha, Hb. now rewrite decide_False.
Qed.

Lemma eq_by_value (n : nat) (h : list Obj) :
  lox_eq (S n) h VNil VNil = Some true /\
  (forall x y, lox_eq (S n) h (VBool x) (VBool y) = Some (bool_decide (x = y))) /\
  (forall x y, lox_eq (S n) h (VNum x) (VNum y) = Some (float_eq x y)) /\
  (forall x y, lox_eq (S n) h (VStr x) (VStr y) = Some (bool_decide (x = y))).
Proof. repeat split. Qed.

(** C4 does not hold of the code.  In
    [class A { init() { print "in"; -"a"; print "unreached"; } }] followed
    by [A(); print "after";] the [LoxError] of the negation stops the body
    of [init], but [LoxClass.__call__] catches it and returns the instance,
    and the program goes on to print [after]. *)
Theorem class_call_swallows_LoxError (host : Host) (k : nat) :
  (forall ctx st,
     eval_stmt host (3 + k) (ExprStmt (UnaryOp (Literal (VStr "a")) op_neg)) ctx st
     = Raise (LoxError "Operand must be a number.") st) /\
  printed (run host (20 + k)
             [Class "A" [MkFunction "init" []
                           [Print (Literal (VStr "in"));
                            ExprStmt (UnaryOp (Literal (VStr "a")) op_neg);
                            Print (Literal (VStr "unreached"))]] None;
              ExprStmt (Call (Var "A") []);
              Print (Literal (VStr "after"))])
  = Some ["in"; "after"].
Proof. split; reflexivity. Qed.

(** What C4 says does hold of the statements themselves: an error raised in
    a condition, a branch, a loop body or a statement of a block comes out
    of the enclosing statement unchanged, with the output printed so far. *)
Lemma statements_pass_errors_on (host : Host) (n : nat) (ctx : addr) (st st1 : State)
    (e : Exc) :
  (forall c t f, eval_expr host n c ctx st = Raise e st1 ->
                 eval_stmt host (S n) (If c t f) ctx st = Raise e st1) /\
  (forall c t f v st0, eval_expr host n c ctx st0 = Ok v st ->
                 eval_stmt host n (if truthy v then t else f) ctx st = Raise e st1 ->
                 eval_stmt host (S n) (If c t f) ctx st0 = Raise e st1) /\
  (forall c b, eval_expr host n c ctx st = Raise e st1 ->
               eval_stmt host (S n) (While c b) ctx st = Raise e st1) /\
  (forall c b v st0, eval_expr host n c ctx st0 = Ok v st -> truthy v = true ->
               eval_stmt host n b ctx st = Raise e st1 ->
               eval_stmt host (S n) (While c b) ctx st0 = Raise e st1) /\
  (forall s rest, eval_stmt host n s ctx st = Raise e st1 ->
                  eval_stmts host (S n) (s :: rest) ctx st = Raise e st1) /\
  (forall stmts, eval_stmts host n stmts (ctx_push ctx ∅ st).1 (ctx_push ctx ∅ st).2
                 = Raise e st1 ->
                 eval_stmt host (S n) (Block stmts) ctx st = Raise e st1).
Proof.
  repeat split.
  - intros c t f H. cbn [eval_stmt]. now rewrite H.
  - intros c t f v st0 Hc H. cbn [eval_stmt]. rewrite Hc. cbn [bind].
    destruct v as [|[]| | |]; exact H.
  - intros c b H. cbn [eval_stmt]. now rewrite H.
  - intros c b v st0 Hc Hv H. cbn [eval_stmt]. rewrite Hc. cbn [bind].
    destruct v as [|[]| | |]; try discriminate Hv; cbn; now rewrite H.
  - intros s rest H. cbn [eval_stmts]. now rewrite H.
  - intros stmts H. cbn [eval_stmt]. exact H.
Qed.

(** C6 does not hold of the code.  [class A {}], [var a = A();],
    [a.klass = 1;] and then [print a.klass;] prints [A]: the write went to
    the field map through [set_field], but the read goes through Python's
    [getattr], which finds the dataclass field [klass] of the [LoxInstance]
    object and never calls [__getattr__]. *)
Theorem Getattr_klass_bypasses_fields (host : Host) (k : nat) :
  printed (run host (8 + k)
             [Class "A" [] None;
              VarDef "a" (Call (Var "A") []);
              ExprStmt (Setattr (Var "a") "klass" (number 1));
              Print (Getattr (Var "a") "klass")])
  = Some ["A"].
Proof. reflexivity. Qed.

Lemma LoxInstance_getattr_raises (i : addr) (name : string) (st st' : State) (e : Exc) :
  LoxInstance_getattr i name st = Raise e st' -> exists msg, e = LoxError msg.
Proof.
  unfold LoxInstance_getattr, get_method, LoxFunction_bind.
  destruct (heap st !! i) as [[]|]; try discriminate.
  destruct (fields !! name); try discriminate.
  destruct (get_method_from _ _ _ _) as [[msg|f]|]; cbn [bind]; try discriminate.
  - intros H. injection H as <- <-. eauto.
  - destruct (decide (name = "init")), (heap st !! f) as [[]|];
      cbn [ctx_push alloc bind fst snd heap set_heap]; rewrite ?snoc_new; discriminate.
Qed.

(** What C6 says does hold for every name that is not an attribute of the
    [LoxInstance] object itself: the field map first, then the method of
    the class chain bound to the receiver, else [LoxError] ("Campo 'NAME'
    não existe", the field does not exist). *)
Lemma Getattr_instance_undeclared (host : Host) (n : nat) (obj : Expr) (name : string)
    (ctx i klass : addr) (fields : gmap string Value) (st st1 : State) :
  eval_expr host n obj ctx st = Ok (VObj i) st1 ->
  heap st1 !! i = Some (LoxInstance klass fields) ->
  name ∉ ["klass"; "fields"; "get_field"; "set_field"; "__getattr__"; "__str__"] ->
  py_getattr host TLoxInstance (VObj i) name = HostMiss ->
  (forall v, fields !! name = Some v ->
             eval_expr host (S n) (Getattr obj name) ctx st = Ok v st1) /\
  (forall msg, fields !! name = None ->
               get_method klass name st1 = Raise (LoxError msg) st1 ->
               eval_expr host (S n) (Getattr obj name) ctx st
               = Raise (LoxError ("Campo '" +:+ name +:+ "' não existe")) st1) /\
  (forall method mname mparams mbody mctx,
     fields !! name = None -> name <> "init" ->
     get_method klass name st1 = Ok method st1 ->
     heap st1 !! method = Some (LoxFunction mname mparams mbody mctx) ->
     exists bound c st2,
       eval_expr host (S n) (Getattr obj name) ctx st = Ok (VObj bound) st2 /\
       heap st2 !! bound = Some (LoxFunction mname mparams mbody c) /\
       heap st2 !! c = Some (Ctx {["this" := VObj i]} (Some mctx))).
Proof.
  intros Hobj Hi Hname Hhost.
  apply not_elem_of_cons in Hname as [Hklass Hrest].
  assert (Heval : eval_expr host (S n) (Getattr obj name) ctx st
                  = LoxInstance_getattr i name st1).
  { cbn [eval_expr]. rewrite Hobj. cbn [bind type_of]. rewrite Hi.
    cbn [fmap option_fmap option_map type_of_obj getattr]. rewrite Hi.
    rewrite decide_False by exact Hklass.
    rewrite bool_decide_eq_false_2 by exact Hrest.
    unfold host_lookup. rewrite Hhost.
    destruct (LoxInstance_getattr i name st1) as [v st2|e st2|w] eqn:Hget;
      try reflexivity.
    apply LoxInstance_getattr_raises in Hget as [msg ->]. reflexivity. }
  rewrite Heval. unfold LoxInstance_getattr. rewrite Hi. split; [|split].
  - intros v ->. reflexivity.
  - intros msg -> ->. reflexivity.
  - intros method mname mparams mbody mctx -> Hinit -> Hm. cbn [bind].
    rewrite decide_False by exact Hinit.
    unfold LoxFunction_bind. rewrite Hm. cbn [ctx_push alloc bind fst snd heap set_heap].
    eexists _, _, _. split; [reflexivity|]. cbn [heap set_heap].
    split; [apply snoc_new | apply snoc_old, snoc_new].
Qed.

(** * Further properties of the code *)

(** ** Operators ([runtime.py]) *)

Lemma float_neg_involutive (x : PyFloat) : float_neg (float_neg x) = x.
Proof. destruct x as [|[]|[]]; reflexivity. Qed.

(** X1.  Negating twice gives the number back, whatever the number (zeros
    of either sign, infinities and nan included): when [e] evaluates to a
    number, [- - e] evaluates to the same number in the same state.  On any
    other value, booleans included, [neg] raises [LoxError] ("Operand must
    be a number.") and leaves the state as it is. *)
Theorem neg_twice (host : Host) (n : nat) (e : Expr) (ctx : addr) (st st1 : State)
    (v : Value) :
  eval_expr host n e ctx st = Ok v st1 ->
  eval_expr host (S (S n)) (UnaryOp (UnaryOp e op_neg) op_neg) ctx st
  = if is_number v then Ok v st1
    else Raise (LoxError "Operand must be a number.") st1.
Proof.
  intros He. cbn [eval_expr]. rewrite He. cbn [bind call_unaryop].
  destruct v; cbn [neg bind is_number call_unaryop]; try reflexivity.
  now rewrite float_neg_involutive.
Qed.

Lemma neg_twice_witness :
  eval_expr bare_host 3 (UnaryOp (UnaryOp (Literal (VNum (FFin true [0%nat] 1))) op_neg) op_neg)
            global_ctx init_state
  = Ok (VNum (FFin true [0%nat] 1)) init_state.
Proof.
  apply (neg_twice bare_host 1 (Literal (VNum (FFin true [0%nat] 1))) global_ctx
           init_state init_state (VNum (FFin true [0%nat] 1)) eq_refl).
Defined.

(** X2.  [sub], [mul], [truediv], [lt], [le], [gt] and [ge] check their
    operands before anything else: when one of the two is not a number
    (a boolean, a string, nil, an object) they raise [LoxError] ("Operands
    must be numbers."), also when the divisor is zero. *)
Theorem numeric_operators_check_first (host : Host) (n : nat) (op : BinOperator)
    (a b : Value) (st : State) :
  numeric_only op = true ->
  is_number a && is_number b = false ->
  call_binop host n op a b st = Raise (LoxError "Operands must be numbers.") st.
Proof.
  intros Hop Hab.
  destruct op; try discriminate Hop;
    destruct a; try discriminate Hab; try reflexivity;
    destruct b; try discriminate Hab; reflexivity.
Qed.

Lemma numeric_operators_check_first_witness :
  call_binop bare_host 1 op_truediv (VStr "a") (VNum zero) init_state
  = Raise (LoxError "Operands must be numbers.") init_state.
Proof. apply numeric_operators_check_first; reflexivity. Defined.

(** X3.  Dividing by zero never gives an infinity or nan: for every
    numerator (zero, infinite and nan included) and a divisor that is zero
    of either sign, [truediv] raises [LoxError] ("Division by zero."). *)
Theorem truediv_by_zero (host : Host) (n : nat) (x z : PyFloat) (st : State) :
  float_is_zero z = true ->
  call_binop host n op_truediv (VNum x) (VNum z) st
  = Raise (LoxError "Division by zero.") st.
Proof. intros Hz. cbn [call_binop on_numbers]. now rewrite Hz. Qed.

Lemma truediv_by_zero_witness :
  call_binop bare_host 1 op_truediv (VNum zero) (VNum (FFin true [0%nat] 1)) init_state
  = Raise (LoxError "Division by zero.") init_state.
Proof. apply truediv_by_zero. reflexivity. Defined.

(** X4.  [add] concatenates two strings, and chained concatenations do not
    depend on the grouping: [(a + b) + c] and [a + (b + c)] give the same
    string.  A string and a number are never added, in either order. *)
Theorem add_strings (host : Host) (a b c : string) (x : PyFloat) (st : State) :
  (let* (ab, st1) := lox_add host (VStr a) (VStr b) st in lox_add host ab (VStr c) st1)
  = (let* (bc, st1) := lox_add host (VStr b) (VStr c) st in lox_add host (VStr a) bc st1) /\
  lox_add host (VStr a) (VStr b) st = Ok (VStr (a +:+ b)) st /\
  lox_add host (VStr a) (VNum x) st
  = Raise (LoxError "Operands must be two numbers or two strings.") st /\
  lox_add host (VNum x) (VStr a) st
  = Raise (LoxError "Operands must be two numbers or two strings.") st.
Proof.
  repeat split. cbn [lox_add bind]. now rewrite append_assoc.
Qed.

Lemma float_eq_sym (x y : PyFloat) : float_eq x y = float_eq y x.
Proof.
  destruct x as [|s1|s1 d1 p1], y as [|s2|s2 d2 p2]; cbn [float_eq]; try reflexivity.
  - apply bool_decide_ext. split; congruence.
  - rewrite (andb_comm (float_is_zero (FFin s1 d1 p1))). f_equal.
    apply bool_decide_ext. intuition congruence.
Qed.

Lemma prim_eq_sym (a b : Value) : prim_eq a b = prim_eq b a.
Proof.
  destruct a, b; cbn [prim_eq]; try reflexivity;
    try apply float_eq_sym; apply bool_decide_ext; split; congruence.
Qed.

(** X5.  On nil, booleans, numbers and strings [eq] does not depend on the
    order of its operands, and [ne] is its negation. *)
Theorem eq_symmetric_on_primitives (n : nat) (h : list Obj) (a b : Value) :
  is_primitive a = true -> is_primitive b = true ->
  lox_eq n h a b = lox_eq n h b a /\
  lox_ne n h a b = negb <$> lox_eq n h b a.
Proof.
  intros Ha Hb.
  assert (H : lox_eq n h a b = lox_eq n h b a).
  { unfold lox_eq.
    destruct a; try discriminate Ha; destruct b; try discriminate Hb;
      cbn [type_of]; try reflexivity;
      rewrite decide_True by reflexivity; destruct n; try reflexivity;
      cbn [py_eq]; f_equal; apply prim_eq_sym. }
  split; [exact H|]. unfold lox_ne. now rewrite H.
Qed.

Lemma eq_symmetric_on_primitives_witness :
  lox_eq 1 [] (VNum zero) (VNum (FFin true [0%nat] 1))
  = lox_eq 1 [] (VNum (FFin true [0%nat] 1)) (VNum zero).
Proof.
  apply (eq_symmetric_on_primitives 1 [] (VNum zero) (VNum (FFin true [0%nat] 1))
           eq_refl eq_refl).
Defined.

(** X6.  An instance is equal to itself, also when its fields lead back to
    it: the comparison of an object with itself stops at the identity of
    the class and of the field map and never walks the fields. *)
Theorem eq_same_instance (n : nat) (h : list Obj) (a klass : addr)
    (fields : gmap string Value) :
  h !! a = Some (LoxInstance klass fields) ->
  lox_eq (S n) h (VObj a) (VObj a) = Some true.
Proof.
  intros Ha. unfold lox_eq. cbn [type_of]. rewrite Ha. cbn [fmap option_fmap option_map].
  rewrite decide_True by reflexivity.
  cbn [py_eq]. rewrite Ha. cbn [identical].
  rewrite !bool_decide_eq_true_2 by reflexivity. reflexivity.
Qed.

(** An instance whose field [me] is the instance itself. *)
Lemma eq_same_instance_witness :
  lox_eq 1 [Ctx ∅ None; LoxClass "A" ∅ None; LoxInstance 1%nat {["me" := VObj 2%nat]}]
         (VObj 2%nat) (VObj 2%nat)
  = Some true.
Proof. apply (eq_same_instance 0 _ 2%nat 1%nat {["me" := VObj 2%nat]}). reflexivity. Defined.

(** ** Display and short circuit *)

(** X7.  A whole number below [1e16] is displayed as its digits: the sign
    when negative, the digits of the shortest digit string, and zeros up to
    the decimal point; no dot and no exponent. *)
Theorem show_whole_number (h : list Obj) (neg : bool) (ds : list nat) (decpt : Z) :
  (0 < length ds)%nat ->
  Z.of_nat (length ds) <= decpt <= 16 ->
  show h (VNum (FFin neg ds decpt))
  = Some ((if neg then "-" else "") +:+ digits_string ds
          +:+ zeros (decpt - Z.of_nat (length ds))).
Proof.
  intros Hlen Hrange. cbn [show]. f_equal.
  unfold float_repr. cbv zeta.
  set (n := Z.of_nat (length ds)) in *.
  assert (Hn : 0 < n) by (unfold n; lia).
  destruct (Z_lt_le_dec n decpt) as [Hlt|Hge].
  - fixed_notation. change (zeros (0 - 0)) with "".
    replace (decpt + 1 - decpt) with 1 by lia.
    rewrite (drop_trailing_dot_keeps "0");
      [| reflexivity | to_tail; exists ""; reflexivity].
    replace ((if neg then "-" else "") +:+ "" +:+ digits_string ds
             +:+ zeros (decpt - n) +:+ "." +:+ zeros 1)
      with (((if neg then "-" else "") +:+ digits_string ds +:+ zeros (decpt - n)) +:+ ".0")
      by (rewrite !append_assoc; reflexivity).
    apply removesuffix_dot0.
  - assert (decpt = n) as -> by lia.
    fixed_notation. change (zeros (0 - 0)) with "".
    replace (n + 1 - n) with 1 by lia. rewrite Z.sub_diag, zeros_0, append_nil_r.
    unfold n. rewrite Nat2Z.id, firstn_all, drop_all.
    rewrite (drop_trailing_dot_keeps "0");
      [| reflexivity | to_tail; exists ""; reflexivity].
    replace ((if neg then "-" else "") +:+ "" +:+ (digits_string ds +:+ "." +:+ digits_string [])
             +:+ zeros 1)
      with (((if neg then "-" else "") +:+ digits_string ds) +:+ ".0")
      by (rewrite !append_assoc; reflexivity).
    apply removesuffix_dot0.
Qed.

(** [1200.0] is displayed as [1200]. *)
Lemma show_whole_number_witness :
  show [] (VNum (FFin false [1; 2]%nat 4)) = Some "1200".
Proof. apply (show_whole_number [] false [1; 2]%nat 4); cbn; lia. Defined.

(** X8.  [And] evaluates its left operand first.  When the value is nil or
    false the expression evaluates to that very value in the state the left
    operand left, and the right operand is not evaluated; for every other
    value (0 and the empty string included) the right operand is evaluated
    from that state and gives the value. *)
Theorem And_short_circuit (host : Host) (n : nat) (left_ right_ : Expr) (ctx : addr)
    (st : State) :
  eval_expr host (S n) (And left_ right_) ctx st =
  match eval_expr host n left_ ctx st with
  | Ok left_val st1 =>
      if truthy left_val then eval_expr host n right_ ctx st1 else Ok left_val st1
  | Raise e st1 => Raise e st1
  | Undefined w => Undefined w
  end.
Proof.
  cbn [eval_expr].
  destruct (eval_expr host n left_ ctx st) as [v st1| |]; try reflexivity.
  cbn [bind]. destruct v as [|[]| | |]; reflexivity.
Qed.

(** ** Method resolution ([LoxClass.get_method]) *)

Lemma get_method_from_sound (n : nat) (h : list Obj) (name : string) (c : addr) :
  match get_method_from n h c name with
  | Some (inr f) => exists d, resolves h name c d f
  | Some (inl msg) =>
      exists r rname rmethods,
        unresolved h name c r /\ h !! r = Some (LoxClass rname rmethods None) /\
        msg = not_found name rname
  | None => True
  end.
Proof.
  revert c. induction n as [|n IH]; intros c; cbn [get_method_from]; [exact I|].
  destruct (h !! c) as [[| |cname methods base| |]|] eqn:Hc; try exact I.
  destruct (methods !! name) as [f|] eqn:Hm.
  - exists c. eapply resolves_own; eassumption.
  - destruct base as [b|].
    + specialize (IH b). destruct (get_method_from n h b name) as [[msg|f]|]; [| |exact I].
      * destruct IH as (r & rname & rm & Hu & Hr & ->).
        exists r, rname, rm. split; [|split; [assumption | reflexivity]].
        eapply unresolved_base; eassumption.
      * destruct IH as [d Hd]. exists d. eapply resolves_base; eassumption.
    + exists c, cname, methods. split; [|split; [assumption | reflexivity]].
      eapply unresolved_root; eassumption.
Qed.

(** X9.  [get_method] changes nothing in the store.  When it finds a
    function, that function is the one declared under the name by the
    nearest class of the base chain, the class asked first: a method of a
    class hides the method of the same name of its bases.  When it finds
    none, no class of the chain declares the name, and the [LoxError] names
    the class at the end of the chain, not the class that was asked. *)
Theorem get_method_nearest (c : addr) (name : string) (st : State) :
  match get_method c name st with
  | Ok f st' => st' = st /\ exists d, resolves (heap st) name c d f
  | Raise e st' =>
      st' = st /\
      exists r rname rmethods,
        unresolved (heap st) name c r /\
        heap st !! r = Some (LoxClass rname rmethods None) /\
        e = LoxError ("Método '" +:+ name +:+ "' não encontrado na classe '"
                      +:+ rname +:+ "'")
  | Undefined _ => True
  end.
Proof.
  unfold get_method.
  pose proof (get_method_from_sound (length (heap st)) (heap st) name c) as H.
  destruct (get_method_from _ _ _ _) as [[msg|f]|]; [| |exact I].
  - destruct H as (r & rname & rm & Hu & Hr & ->). split; [reflexivity|].
    exists r, rname, rm. auto.
  - split; [reflexivity | exact H].
Qed.

Lemma get_method_from_fuel (h : list Obj) (name : string) :
  classes_wf h ->
  forall (n m : nat) (c : addr), (c < n)%nat -> (c < m)%nat ->
    get_method_from n h c name = get_method_from m h c name.
Proof.
  intros Hwf. induction n as [|n IH]; intros m c Hn Hm; [lia|].
  destruct m as [|m]; [lia|]. cbn [get_method_from].
  destruct (h !! c) as [[| |cname methods base| |]|] eqn:Hc; try reflexivity.
  destruct (methods !! name); [reflexivity|].
  destruct base as [b|]; [|reflexivity].
  pose proof (Hwf _ _ _ _ Hc). apply IH; lia.
Qed.

(** X10.  In a store where every base is older than the class that extends
    it, a class that does not declare a method itself resolves it exactly
    as its base does: same function, or the same error. *)
Theorem get_method_inherits (c b : addr) (cname name : string)
    (methods : gmap string addr) (st : State) :
  classes_wf (heap st) ->
  heap st !! c = Some (LoxClass cname methods (Some b)) ->
  methods !! name = None ->
  get_method c name st = get_method b name st.
Proof.
  intros Hwf Hc Hm. unfold get_method.
  pose proof (lookup_lt_Some _ _ _ Hc) as Hlt.
  pose proof (Hwf _ _ _ _ Hc) as Hb.
  destruct (length (heap st)) as [|k] eqn:Hlen; [lia|].
  cbn [get_method_from]. rewrite Hc, Hm.
  rewrite (get_method_from_fuel (heap st) name Hwf k (S k) b) by lia.
  reflexivity.
Qed.

(** [class A { m }] at address 1 with its method at address 0, and
    [class B < A {}] at address 2. *)
Lemma get_method_inherits_witness :
  let st := {| heap := [LoxFunction "m" [] [] 0%nat; LoxClass "A" {["m" := 0%nat]} None;
                        LoxClass "B" ∅ (Some 1%nat)];
               stdout := [] |} in
  get_method 2%nat "m" st = get_method 1%nat "m" st.
Proof.
  intros st. apply (get_method_inherits 2%nat 1%nat "B" "m" ∅ st).
  - intros c cname methods b Hc.
    destruct c as [|[|[|c]]]; cbn in Hc; try discriminate Hc.
    injection Hc as _ _ <-. lia.
  - reflexivity.
  - reflexivity.
Defined.

(** ** Instances and calls *)

(** X11.  What [set_field] stores, [get_field] gives back: after
    [set_field(name, value)] on an instance, [get_field(name)] is [value],
    whatever the name (a name of a method of the class, or [klass], makes
    no difference: the field map comes first), and the other fields of the
    instance still give what they held. *)
Theorem set_field_get_field (self : addr) (name : string) (value r : Value)
    (st st' : State) :
  set_field self name value st = Ok r st' ->
  r = value /\
  get_field self name st' = Ok value st' /\
  forall other w klass fields,
    other <> name ->
    heap st !! self = Some (LoxInstance klass fields) ->
    fields !! other = Some w ->
    get_field self other st' = Ok w st'.
Proof.
  unfold set_field, get_field, LoxInstance_getattr.
  destruct (heap st !! self) as [[| | |klass fields|]|] eqn:Hself; try discriminate.
  intros H. injection H as <- <-.
  assert (Hnew : heap (store self (LoxInstance klass (<[name := value]> fields)) st) !! self
                 = Some (LoxInstance klass (<[name := value]> fields))).
  { cbn [store heap set_heap]. apply list_lookup_insert_eq. eapply lookup_lt_Some, Hself. }
  split; [reflexivity|]. split.
  - rewrite Hnew. now rewrite lookup_insert_eq.
  - intros other w k f Hne Hk Hw. injection Hk as <- <-.
    rewrite Hnew. rewrite lookup_insert_ne by congruence. now rewrite Hw.
Qed.

(** A field named like the dataclass field [klass]. *)
Lemma set_field_get_field_witness :
  let st := {| heap := [LoxClass "A" ∅ None; LoxInstance 0%nat ∅]; stdout := [] |} in
  exists st', set_field 1%nat "klass" (VStr "x") st = Ok (VStr "x") st' /\
              get_field 1%nat "klass" st' = Ok (VStr "x") st'.
Proof.
  intros st. eexists. split; [reflexivity|].
  exact (proj1 (proj2 (set_field_get_field 1%nat "klass" (VStr "x") (VStr "x") st _ eq_refl))).
Defined.

(** X12.  A class without [init], neither its own nor inherited, is called
    without arguments: the call then evaluates to a new instance with no
    fields; with one or more arguments it raises [TypeError] ("Esperava 0
    argumentos mas recebeu N"). *)
Theorem class_without_init (host : Host) (n : nat) (self instance : addr)
    (args : list Value) (st st1 : State) (msg : string) :
  type_of (heap st) (VObj self) = Some TLoxClass ->
  alloc (LoxInstance self ∅) st = (instance, st1) ->
  get_method self "init" st1 = Raise (LoxError msg) st1 ->
  call host (S n) (VObj self) args st
  = match args with
    | [] => Ok (VObj instance) st1
    | _ :: _ => Raise (TypeError ("Esperava 0 argumentos mas recebeu "
                                  +:+ pretty (length args))) st1
    end /\
  heap st1 !! instance = Some (LoxInstance self ∅).
Proof.
  intros Hself Halloc Hinit.
  cbn in Hself. destruct (heap st !! self) as [o|] eqn:Ho; [|discriminate Hself].
  destruct o; try discriminate Hself. split.
  - cbn [call]. rewrite Ho, Halloc, Hinit. cbn [bind].
    destruct args; reflexivity.
  - injection Halloc as <- <-. apply snoc_new.
Qed.

Lemma class_without_init_witness :
  let st := {| heap := [LoxClass "A" ∅ None]; stdout := [] |} in
  exists st1,
    call bare_host 1 (VObj 0%nat) [VNil; VNil] st
    = Raise (TypeError "Esperava 0 argumentos mas recebeu 2") st1.
Proof.
  intros st. eexists.
  eapply (class_without_init bare_host 0 0%nat 1%nat [VNil; VNil] st); reflexivity.
Defined.

(** X13.  The number of arguments is checked before anything of the
    function runs: a call of a function with another number of arguments
    than it has parameters raises [TypeError] ("'NAME' esperava K
    argumentos, mas recebeu N.") in the state of the call, and a call of a
    class whose [init] takes another number of arguments raises that error
    of [init]. *)
Theorem arity_mismatch (host : Host) (n : nat) (name : string) (params : list string)
    (body : list Stmt) (fctx : addr) (args : list Value) :
  length args <> length params ->
  (forall f st,
     heap st !! f = Some (LoxFunction name params body fctx) ->
     call host (2 + n) (VObj f) args st
     = Raise (TypeError ("'" +:+ name +:+ "' esperava " +:+ pretty (length params)
                         +:+ " argumentos, mas recebeu " +:+ pretty (length args) +:+ ".")) st) /\
  (forall self instance init bound st st1 st3,
     type_of (heap st) (VObj self) = Some TLoxClass ->
     alloc (LoxInstance self ∅) st = (instance, st1) ->
     get_method self "init" st1 = Ok init st1 ->
     heap st1 !! init = Some (LoxFunction name params body fctx) ->
     LoxFunction_bind init (VObj instance) st1 = Ok bound st3 ->
     call host (3 + n) (VObj self) args st
     = Raise (TypeError ("'" +:+ name +:+ "' esperava " +:+ pretty (length params)
                         +:+ " argumentos, mas recebeu " +:+ pretty (length args) +:+ ".")) st3).
Proof.
  intros Hlen.
  assert (Hcall : forall f st c,
             heap st !! f = Some (LoxFunction name params body c) ->
             call host (2 + n) (VObj f) args st
             = Raise (TypeError ("'" +:+ name +:+ "' esperava " +:+ pretty (length params)
                                 +:+ " argumentos, mas recebeu " +:+ pretty (length args)
                                 +:+ ".")) st).
  { intros f st c Hf. cbn [Nat.add call]. rewrite Hf. cbn [LoxFunction_call].
    now rewrite bool_decide_eq_false_2. }
  split; [intros f st; apply Hcall|].
  intros self instance init bound st st1 st3 Hself Halloc Hinit Hfun Hbind.
  cbn in Hself. destruct (heap st !! self) as [o|] eqn:Ho; [|discriminate Hself].
  destruct o; try discriminate Hself.
  change (3 + n)%nat with (S (2 + n)). cbn [call].
  rewrite Ho, Halloc, Hinit. cbn [bind]. rewrite Hbind. cbn [bind].
  unfold LoxFunction_bind in Hbind. rewrite Hfun in Hbind.
  cbn [ctx_push alloc] in Hbind. injection Hbind as <- <-.
  erewrite Hcall; [reflexivity|]. cbn [heap set_heap]. apply snoc_new.
Qed.

Lemma arity_mismatch_witness :
  let st := {| heap := [LoxFunction "f" ["x"] [] 0%nat]; stdout := [] |} in
  call bare_host 2 (VObj 0%nat) [] st
  = Raise (TypeError "'f' esperava 1 argumentos, mas recebeu 0.") st.
Proof.
  intros st.
  apply (proj1 (arity_mismatch bare_host 0 "f" ["x"] [] 0%nat [] ltac:(discriminate))).
  reflexivity.
Defined.

(** ** [return] *)

Lemma no_return_bind {A B : Type} (m : Res A) (k : A -> State -> Res B) :
  no_return m -> (forall a st, no_return (k a st)) -> no_return (bind m k).
Proof. destruct m as [a st|e st|w]; cbn; auto. Qed.

Lemma no_return_binop (host : Host) (n : nat) (op : BinOperator) (a b : Value) (st : State) :
  no_return (call_binop host n op a b st).
Proof.
  destruct op, a, b; cbn; try exact I; repeat case_match; exact I.
Qed.

Lemma no_return_unaryop (op : UnaryOperator) (v : Value) (st : State) :
  no_return (call_unaryop op v st).
Proof. destruct op, v; exact I. Qed.

Lemma no_return_get_method (c : addr) (name : string) (st : State) :
  no_return (get_method c name st).
Proof. unfold get_method. repeat case_match; exact I. Qed.

Lemma no_return_bind_method (f : addr) (obj : Value) (st : State) :
  no_return (LoxFunction_bind f obj st).
Proof. unfold LoxFunction_bind. repeat case_match; exact I. Qed.

Lemma no_return_getattr (host : Host) (v : Value) (name : string) (st : State) :
  no_return (getattr host v name st).
Proof.
  assert (Hinst : forall a, no_return (LoxInstance_getattr a name st)).
  { intros a. destruct (LoxInstance_getattr a name st) as [| e st' |] eqn:H; try exact I.
    apply LoxInstance_getattr_raises in H as [msg ->]. exact I. }
  unfold getattr, host_lookup. repeat case_match; try exact I; apply Hinst.
Qed.

Lemma no_return_no_attribute (v : Value) (name : string) (st : State) :
  no_return (no_attribute v name st).
Proof. unfold no_attribute. case_match; exact I. Qed.

Lemma no_return_ctx_var_def (c : addr) (name : string) (v : Value) (st : State) :
  no_return (ctx_var_def c name v st).
Proof. unfold ctx_var_def. repeat case_match; exact I. Qed.

Lemma no_return_print (v : Value) (st : State) : no_return (lox_print v st).
Proof. unfold lox_print. case_match; exact I. Qed.

Lemma no_return_eval (host : Host) (n : nat) :
  (forall e ctx st, no_return (eval_expr host n e ctx st)) /\
  (forall params ctx st, no_return (eval_params host n params ctx st)) /\
  (forall func args st, no_return (call host n func args st)) /\
  (forall name params body fctx args st,
     no_return (LoxFunction_call host n name params body fctx args st)).
Proof.
  induction n as [|n (IHe & IHp & IHc & IHf)]; [repeat split; intros; exact I|].
  assert (Hf : forall name params body fctx args st,
             no_return (LoxFunction_call host (S n) name params body fctx args st)).
  { intros. cbn [LoxFunction_call]. repeat case_match; exact I. }
  repeat split; [| | |exact Hf].
  - intros e ctx st. destruct e; cbn [eval_expr].
    + apply no_return_bind; [apply IHe|]. intros lv st1.
      apply no_return_bind; [apply IHe|]. intros rv st2. apply no_return_binop.
    + case_match; exact I.
    + exact I.
    + apply no_return_bind; [apply IHe|]. intros lv st1. case_match; [exact I | apply IHe].
    + apply no_return_bind; [apply IHe|]. intros lv st1. repeat case_match; try exact I; apply IHe.
    + apply no_return_bind; [apply IHe|]. intros v st1. apply no_return_unaryop.
    + apply no_return_bind; [apply IHe|]. intros func st1.
      apply no_return_bind; [apply IHp|]. intros args st2.
      unfold not_a_function. repeat case_match; try exact I; apply IHc.
    + case_match; exact I.
    + repeat case_match; try exact I.
      apply no_return_bind; [apply no_return_get_method|]. intros m st1.
      apply no_return_bind; [apply no_return_bind_method|]. intros b st2. exact I.
    + apply no_return_bind; [apply IHe|]. intros r st1.
      apply no_return_bind; [unfold ctx_assign; repeat case_match; exact I|].
      intros ? st2. exact I.
    + apply no_return_bind; [apply IHe|]. intros v st1.
      pose proof (no_return_getattr host v name st1) as Hg.
      pose proof (fun c => no_return_get_method c name st1) as Hm.
      repeat case_match; try exact I; try apply no_return_no_attribute;
        subst; try (rewrite ?H0, ?H1, ?H2, ?H3 in Hg; exact Hg).
      all: match goal with
           | H : getattr _ _ _ _ = Raise ?e _ |- no_return (Raise ?e _) =>
               rewrite H in Hg; exact Hg
           end.
    + apply no_return_bind; [apply IHe|]. intros ov st1.
      apply no_return_bind; [apply IHe|]. intros v st2.
      repeat case_match; try exact I.
      all: apply no_return_bind;
        [try unfold py_setattr; try unfold set_field; repeat case_match; exact I|].
      all: intros ? st3; exact I.
  - intros params ctx st. destruct params; cbn [eval_params]; [exact I|].
    apply no_return_bind; [apply IHe|]. intros v st1.
    apply no_return_bind; [apply IHp|]. intros vs st2. exact I.
  - intros func args st. cbn [call]. destruct func; try exact I.
    destruct (heap st !! a) as [[| | | |]|]; try exact I.
    + apply IHf.
    + apply no_return_bind; [apply IHf|]. intros ? st1. exact I.
    + destruct (alloc (LoxInstance a ∅) st) as [instance st1].
      match goal with
      | |- no_return (match ?m with _ => _ end) =>
          assert (Hm : no_return m); [|destruct m as [? ?|[] ?|?]; try exact I]
      end.
      * apply no_return_bind; [apply no_return_get_method|]. intros i st2.
        apply no_return_bind; [apply no_return_bind_method|]. intros b st3. apply IHc.
      * case_match; exact I.
      * exact Hm.
Qed.

(** X14.  As long as the program calls Lox callables only (functions,
    bound initializers and classes, not a Python method that it got hold
    of through an attribute such as [f.body], where the embedding stops), a
    [return] never leaves a call: [LoxFunction.call] turns the [LoxReturn]
    of the body into the value of the call, so that no evaluation of an
    expression, of an argument list or of a call ends in a pending
    [LoxReturn]. *)
Theorem return_stops_at_call (host : Host) (n : nat) (v : Value) (st' : State) :
  (forall e ctx st, eval_expr host n e ctx st <> Raise (LoxReturn v) st') /\
  (forall params ctx st, eval_params host n params ctx st <> Raise (LoxReturn v) st') /\
  (forall func args st, call host n func args st <> Raise (LoxReturn v) st') /\
  (forall name params body fctx args st,
     LoxFunction_call host n name params body fctx args st <> Raise (LoxReturn v) st').
Proof.
  destruct (no_return_eval host n) as (He & Hp & Hc & Hf).
  repeat split; intros.
  - intros E. pose proof (He e ctx st) as H. now rewrite E in H.
  - intros E. pose proof (Hp params ctx st) as H. now rewrite E in H.
  - intros E. pose proof (Hc func args st) as H. now rewrite E in H.
  - intros E. pose proof (Hf name params body fctx args st) as H. now rewrite E in H.
Qed.

Lemma first_error_Some_l (a b : option SemanticError) :
  a <> None -> first_error a b <> None.
Proof. destruct a; cbn; congruence. Qed.

Lemma first_error_Some_r (a b : option SemanticError) :
  b <> None -> first_error a b <> None.
Proof. destruct a; cbn; congruence. Qed.

Lemma bind_returns {A B : Type} (m : Res A) (k : A -> State -> Res B)
    (v : Value) (st' : State) :
  no_return m ->
  bind m k = Raise (LoxReturn v) st' ->
  exists a st1, m = Ok a st1 /\ k a st1 = Raise (LoxReturn v) st'.
Proof.
  destruct m as [a st1|e st1|w]; cbn; intros Hm H; try discriminate H.
  - eauto.
  - injection H as -> ->. contradiction.
Qed.

(** A statement from which a [return] comes out holds a [Return] that no
    function declaration encloses, which [Return.validate_self] refuses
    under a cursor without function. *)
Lemma pending_return_is_refused (host : Host) (n : nat) :
  (forall s ctx st v st' c,
     eval_stmt host n s ctx st = Raise (LoxReturn v) st' ->
     is_scoped_to is_Function_node c = false ->
     validate_stmt c s <> None) /\
  (forall stmts ctx st v st' c,
     eval_stmts host n stmts ctx st = Raise (LoxReturn v) st' ->
     is_scoped_to is_Function_node c = false ->
     first_of (validate_stmt c) stmts <> None).
Proof.
  induction n as [|n [IHs IHl]]; [split; intros; discriminate|].
  pose proof (no_return_eval host n) as (He & _).
  split.
  - intros s ctx st v st' c Hs Hc.
    destruct s as [e|e|[e|]|name e|cond t f|cond b|stmts|[fname params body]|cname methods base];
      cbn [eval_stmt] in Hs.
    + apply bind_returns in Hs as (a & st1 & _ & H); [discriminate H | apply He].
    + apply bind_returns in Hs as (a & st1 & _ & H); [|apply He].
      pose proof (no_return_print a st1) as Hp. rewrite H in Hp. contradiction.
    + cbn [validate_stmt validate_self]. unfold Return_validate_self. rewrite Hc. discriminate.
    + cbn [validate_stmt validate_self]. unfold Return_validate_self. rewrite Hc. discriminate.
    + apply bind_returns in Hs as (a & st1 & _ & H); [|apply He].
      pose proof (no_return_ctx_var_def ctx name a st1) as Hp. rewrite H in Hp. contradiction.
    + apply bind_returns in Hs as (a & st1 & _ & H); [|apply He].
      cbn [validate_stmt]. apply first_error_Some_r, first_error_Some_r.
      assert (Hin : is_scoped_to is_Function_node (StmtNode (If cond t f) :: c) = false)
        by exact Hc.
      destruct (negb (is_False a) && negb (is_None a)).
      * apply first_error_Some_l. eapply IHs; eassumption.
      * apply first_error_Some_r. eapply IHs; eassumption.
    + apply bind_returns in Hs as (a & st1 & _ & H); [|apply He].
      destruct (is_False a || is_None a); [discriminate H|].
      destruct (eval_stmt host n b ctx st1) as [? st2|e st2|w] eqn:Hb; cbn [bind] in H;
        try discriminate H.
      * eapply IHs; eassumption.
      * injection H as -> ->.
        cbn [validate_stmt]. apply first_error_Some_r, first_error_Some_r.
        eapply IHs; [exact Hb | exact Hc].
    + destruct (ctx_push ctx ∅ st) as [new_ctx st1].
      cbn [validate_stmt]. apply first_error_Some_r.
      eapply IHl; [exact Hs | exact Hc].
    + destruct (alloc _ st) as [function st1].
      pose proof (no_return_ctx_var_def ctx fname (VObj function) st1) as Hp.
      rewrite Hs in Hp. contradiction.
    + exfalso. revert Hs.
      match goal with
      | |- bind ?m ?k = _ -> _ =>
          assert (Hm : no_return m) by (repeat case_match; exact I);
          intros Hs; apply bind_returns in Hs as (sc & st1 & _ & H); [|exact Hm]
      end.
      destruct (match sc with None => _ | Some _ => _ end) as [method_ctx st2].
      destruct (make_methods method_ctx methods st2) as [md st3].
      destruct (alloc _ st3) as [lox_class st4].
      pose proof (no_return_ctx_var_def ctx cname (VObj lox_class) st4) as Hp.
      rewrite H in Hp. contradiction.
  - intros stmts ctx st v st' c Hs Hc.
    destruct stmts as [|s rest]; cbn [eval_stmts] in Hs; [discriminate Hs|].
    cbn [first_of].
    destruct (eval_stmt host n s ctx st) as [? st1|e st1|w] eqn:Hstmt; cbn [bind] in Hs;
      try discriminate Hs.
    + apply first_error_Some_r. eapply IHl; eassumption.
    + injection Hs as -> ->. apply first_error_Some_l. eapply IHs; eassumption.
Qed.

(** X15.  In a program that passes validation no [return] reaches the top
    level, as long as the program calls Lox callables only (not a Python
    method that it got hold of through an attribute such as [f.body], where
    the embedding stops): whatever the host, the bound and the state it
    starts from, the evaluation of the program does not end in a pending
    [LoxReturn]. *)
Theorem validated_program_does_not_return (host : Host) (fuel : nat)
    (program : Program) (ctx : addr) (st st' : State) (v : Value) :
  validate program = None ->
  eval_program host fuel program ctx st <> Raise (LoxReturn v) st'.
Proof.
  intros Hval H. unfold eval_program in H.
  destruct (pending_return_is_refused host fuel) as [_ Hl].
  apply (Hl _ _ _ _ _ [ProgramNode program]) in H; [|reflexivity].
  apply H. exact Hval.
Qed.

(** [fun f() { return 1; }] and [print f();] *)
Lemma validated_program_does_not_return_witness :
  eval_program bare_host 20
    [FunctionDecl (MkFunction "f" [] [Return (Some (number 1))]);
     Print (Call (Var "f") [])] global_ctx init_state
  <> Raise (LoxReturn VNil) init_state.
Proof. apply validated_program_does_not_return. reflexivity. Defined.

(** ** The [validate_self] methods *)

Lemma Block_check_None (seen : list string) (stmts : list Stmt) :
  Block_check seen stmts = None
  <-> NoDup (declared_names stmts) /\ forall x, x ∈ declared_names stmts -> x ∉ seen.
Proof.
  revert seen. induction stmts as [|s rest IH]; intros seen.
  - cbn. split; [intros _; split; [constructor | intros x Hx; now apply elem_of_nil in Hx]
                | reflexivity].
  - assert (Hskip : Block_check seen rest = None
                    <-> NoDup (declared_names rest)
                        /\ (forall x, x ∈ declared_names rest -> x ∉ seen)) by apply IH.
    destruct s; try exact Hskip.
    change (declared_names (VarDef name initializer :: rest))
      with (name :: declared_names rest).
    cbn [Block_check]. case_bool_decide as Hin.
    + split; [discriminate|]. intros [_ H]. exfalso. apply (H name); [left | exact Hin].
    + rewrite IH, NoDup_cons. split.
      * intros [Hnd Hrest]. split; [split; [|exact Hnd]|].
        -- intros Hname. apply (Hrest name Hname). left.
        -- intros x Hx. apply elem_of_cons in Hx as [-> | Hx]; [exact Hin|].
           intros Hs. apply (Hrest x Hx). now right.
      * intros [[Hname Hnd] Hall]. split; [exact Hnd|].
        intros x Hx Hs. apply elem_of_cons in Hs as [-> | Hs]; [contradiction|].
        apply (Hall x); [now right | exact Hs].
Qed.

(** X16.  [Block.validate_self] accepts a block exactly when no two of its
    own [var] statements declare the same name; declarations inside nested
    statements do not count, nor do names declared by [fun] or [class]. *)
Theorem Block_validate_self_NoDup (stmts : list Stmt) :
  Block_validate_self stmts = None <-> NoDup (declared_names stmts).
Proof.
  unfold Block_validate_self. rewrite Block_check_None. split; [tauto|].
  intros H. split; [exact H|]. intros x _ Hx. now apply elem_of_nil in Hx.
Qed.

Lemma duplicate_param_None (seen params : list string) :
  duplicate_param seen params = None
  <-> NoDup params /\ forall x, x ∈ params -> x ∉ seen.
Proof.
  revert seen. induction params as [|p rest IH]; intros seen.
  - cbn. split; [intros _; split; [constructor | intros x Hx; now apply elem_of_nil in Hx]
                | reflexivity].
  - cbn [duplicate_param]. case_bool_decide as Hin.
    + split; [discriminate|]. intros [_ H]. exfalso. apply (H p); [left | exact Hin].
    + rewrite IH, NoDup_cons. split.
      * intros [Hnd Hrest]. split; [split; [|exact Hnd]|].
        -- intros Hp. apply (Hrest p Hp). left.
        -- intros x Hx. apply elem_of_cons in Hx as [-> | Hx]; [exact Hin|].
           intros Hs. apply (Hrest x Hx). now right.
      * intros [[Hp Hnd] Hall]. split; [exact Hnd|].
        intros x Hx Hs. apply elem_of_cons in Hs as [-> | Hs]; [contradiction|].
        apply (Hall x); [now right | exact Hs].
Qed.

Lemma elem_of_declared_names (x : string) (stmts : list Stmt) :
  x ∈ declared_names stmts <-> exists e, VarDef x e ∈ stmts.
Proof.
  unfold declared_names. rewrite list_elem_of_omap. split.
  - intros (s & Hs & Hx). destruct s; try discriminate Hx.
    injection Hx as ->. eauto.
  - intros [e He]. exists (VarDef x e). auto.
Qed.

Lemma Function_validate_self_sound (f : Function) :
  Function_validate_self f = None ->
  (forall p, p ∈ fn_params f -> p ∉ RESERVED_WORDS) /\
  NoDup (fn_params f) /\
  (forall x, x ∈ declared_names (fn_body f) -> x ∉ fn_params f).
Proof.
  unfold Function_validate_self.
  rewrite !first_error_None, !first_of_None, duplicate_param_None.
  intros (Hres & [Hnd _] & Hbody). split; [|split; [exact Hnd|]].
  - intros p Hp Hin. specialize (Hres p Hp).
    now rewrite bool_decide_eq_true_2 in Hres.
  - intros x Hx Hin. apply elem_of_declared_names in Hx as [e He].
    specialize (Hbody _ He). cbn in Hbody.
    now rewrite bool_decide_eq_true_2 in Hbody.
Qed.

(** X17.  [Function.validate_self] accepts a function exactly when no
    parameter is a reserved word, no two parameters have the same name, and
    no [var] statement of the body itself declares the name of a
    parameter.  The name of the function is not looked at. *)
Theorem Function_validate_self_ok (f : Function) :
  Function_validate_self f = None
  <-> (forall p, p ∈ fn_params f -> p ∉ RESERVED_WORDS) /\
      NoDup (fn_params f) /\
      (forall x, x ∈ declared_names (fn_body f) -> x ∉ fn_params f).
Proof.
  split; [apply Function_validate_self_sound|].
  unfold Function_validate_self.
  rewrite !first_error_None, !first_of_None, duplicate_param_None.
  intros (Hres & Hnd & Hbody). split; [|split; [split|]].
  - intros p Hp. rewrite bool_decide_eq_false_2; [reflexivity | now apply Hres].
  - exact Hnd.
  - intros x _ Hx. now apply elem_of_nil in Hx.
  - intros s Hs. destruct s; try reflexivity.
    rewrite bool_decide_eq_false_2; [reflexivity|].
    apply Hbody, elem_of_declared_names. eauto.
Qed.

(** X18.  A program that passes validation is well formed at every depth:
    wherever they occur in the tree, a [var] declares no reserved word, a
    block (the body of a function or of a method included) declares no name
    twice, and a function or method has parameters that are distinct, not
    reserved and not declared again by the [var] statements of its body. *)
Theorem validated_program_is_well_formed (program : Program) (c : Cursor) (n : Node) :
  validate program = None ->
  occurs (ProgramNode program) c n ->
  match n with
  | StmtNode (VarDef name _) => name ∉ RESERVED_WORDS
  | StmtNode (Block stmts) => NoDup (declared_names stmts)
  | StmtNode (FunctionDecl f) =>
      (forall p, p ∈ fn_params f -> p ∉ RESERVED_WORDS) /\
      NoDup (fn_params f) /\
      (forall x, x ∈ declared_names (fn_body f) -> x ∉ fn_params f)
  | _ => True
  end.
Proof.
  intros Hval Hocc.
  pose proof (validate_sound _ _ _ Hval Hocc) as Hnode.
  rewrite validate_node_children in Hnode.
  apply first_error_None in Hnode as [Hself _].
  destruct n as [|e|s]; try exact I. destruct s; try exact I; cbn [validate_self] in Hself.
  - unfold VarDef_validate_self in Hself. case_bool_decide; [discriminate Hself | assumption].
  - unfold Block_validate_self in Hself. now apply Block_check_None in Hself as [Hnd _].
  - now apply Function_validate_self_sound.
Qed.

(** [fun f(a) { var b = 1; }] and its body. *)
Lemma validated_program_is_well_formed_witness :
  NoDup (declared_names [VarDef "b" (number 1)]).
Proof.
  pose (f := MkFunction "f" ["a"] [VarDef "b" (number 1)]).
  apply (validated_program_is_well_formed [FunctionDecl f]
           [StmtNode (FunctionDecl f); ProgramNode [FunctionDecl f]]
           (StmtNode (Block [VarDef "b" (number 1)]))).
  - reflexivity.
  - apply occurs_child; [apply occurs_child; [apply occurs_root | left] |].
    cbn. right. left.
Defined.

(** ** What evaluation keeps *)

Lemma evolves_trans (a b c : Obj) : evolves a b -> evolves b c -> evolves a c.
Proof.
  intros Hab Hbc. destruct Hab; [exact Hbc | |]; inversion Hbc; subst;
    try constructor; auto.
Qed.

Lemma evolves_class (o : Obj) (cname : string) (methods : gmap string addr)
    (base : option addr) :
  evolves o (LoxClass cname methods base) -> o = LoxClass cname methods base.
Proof. inversion 1; reflexivity. Qed.

Lemma extends_refl (st : State) : extends st st.
Proof.
  split; [reflexivity|]. split; [|auto].
  intros a o Ho. exists o. split; [exact Ho | constructor].
Qed.

Lemma extends_trans (st1 st2 st3 : State) :
  extends st1 st2 -> extends st2 st3 -> extends st1 st3.
Proof.
  intros (Hout1 & Hobj1 & Hwf1) (Hout2 & Hobj2 & Hwf2).
  split; [etransitivity; eassumption|]. split; [|auto].
  intros a o Ho. destruct (Hobj1 a o Ho) as (o' & Ho' & He).
  destruct (Hobj2 a o' Ho') as (o'' & Ho'' & He').
  exists o''. split; [exact Ho'' | eapply evolves_trans; eassumption].
Qed.

Lemma extends_alloc (o : Obj) (st st1 : State) (a : addr) :
  alloc o st = (a, st1) ->
  (forall cname methods b, o = LoxClass cname methods (Some b) -> (b < length (heap st))%nat) ->
  extends st st1.
Proof.
  intros Halloc Hbase. injection Halloc as <- <-.
  split; [reflexivity|]. split.
  - intros a o0 Ho. exists o0. split; [now apply snoc_old | constructor].
  - intros Hwf c cname methods b Hc. cbn [heap set_heap] in Hc.
    destruct (decide (c < length (heap st))%nat) as [Hlt|Hge].
    + rewrite lookup_app_l in Hc by exact Hlt. eapply Hwf, Hc.
    + rewrite lookup_app_r in Hc by lia.
      destruct (c - length (heap st))%nat as [|k] eqn:Hk; [|destruct k; discriminate Hc].
      injection Hc as ->. specialize (Hbase _ _ _ eq_refl). lia.
Qed.

Lemma extends_store (a : addr) (o o' : Obj) (st : State) :
  heap st !! a = Some o -> evolves o o' -> extends st (store a o' st).
Proof.
  intros Ha He. pose proof (lookup_lt_Some _ _ _ Ha) as Hlt.
  assert (Hobj : forall c x, heap (store a o' st) !! c = Some x ->
                             exists x0, heap st !! c = Some x0 /\ evolves x0 x).
  { intros c x Hc. cbn [store heap set_heap] in Hc.
    destruct (decide (c = a)) as [E|Hne].
    - subst c. rewrite list_lookup_insert_eq in Hc by exact Hlt. injection Hc as <-. eauto.
    - rewrite list_lookup_insert_ne in Hc by congruence. exists x. split; [exact Hc | constructor]. }
  split; [reflexivity|]. split.
  - intros c x Hc. cbn [store heap set_heap].
    destruct (decide (c = a)) as [E|Hne].
    + subst c. rewrite list_lookup_insert_eq by exact Hlt.
      pose proof (eq_trans (eq_sym Hc) Ha) as E. injection E as ->. eauto.
    + rewrite list_lookup_insert_ne by congruence. exists x. split; [exact Hc | constructor].
  - intros Hwf c cname methods b Hc.
    destruct (Hobj _ _ Hc) as (x0 & Hx0 & Hev).
    apply evolves_class in Hev as ->. eapply Hwf, Hx0.
Qed.

Lemma extending_bind {A B : Type} (st : State) (m : Res A) (k : A -> State -> Res B) :
  extending st m -> (forall a st1, extending st1 (k a st1)) -> extending st (bind m k).
Proof.
  destruct m as [a st1|e st1|w]; cbn [bind extending]; [|auto..].
  intros H1 Hk. specialize (Hk a st1).
  destruct (k a st1); cbn [extending] in *; [| |exact I]; eapply extends_trans; eassumption.
Qed.

Lemma extending_weaken {A : Type} (st st1 : State) (r : Res A) :
  extends st st1 -> extending st1 r -> extending st r.
Proof.
  intros H. destruct r; cbn [extending]; [| |auto]; apply extends_trans; exact H.
Qed.

Lemma extending_print (v : Value) (st : State) : extending st (lox_print v st).
Proof.
  unfold lox_print. destruct (show (heap st) v); [|exact I].
  split; [now apply prefix_app_r|]. split; [|auto].
  intros a o Ho. exists o. split; [exact Ho | constructor].
Qed.

Lemma extending_binop (host : Host) (n : nat) (op : BinOperator) (a b : Value) (st : State) :
  extending st (call_binop host n op a b st).
Proof.
  destruct op, a, b; cbn; try apply extends_refl; repeat case_match;
    try exact I; apply extends_refl.
Qed.

Lemma extending_unaryop (op : UnaryOperator) (v : Value) (st : State) :
  extending st (call_unaryop op v st).
Proof. destruct op, v; apply extends_refl. Qed.

Lemma extending_get_method (c : addr) (name : string) (st : State) :
  extending st (get_method c name st).
Proof. unfold get_method. repeat case_match; try exact I; apply extends_refl. Qed.

Lemma extends_push (c : addr) (bindings : gmap string Value) (st st1 : State) (a : addr) :
  ctx_push c bindings st = (a, st1) -> extends st st1.
Proof. intros H. eapply extends_alloc; [exact H | discriminate]. Qed.

Lemma extending_bind_method (f : addr) (obj : Value) (st : State) :
  extending st (LoxFunction_bind f obj st).
Proof.
  unfold LoxFunction_bind.
  destruct (heap st !! f) as [[| | | |]|]; try exact I.
  all: destruct (ctx_push _ _ st) as [c st1] eqn:H1.
  all: destruct (alloc _ st1) as [b st2] eqn:H2.
  all: cbn [extending]; eapply extends_trans;
    [eapply extends_push, H1 | eapply extends_alloc; [exact H2 | discriminate]].
Qed.

Lemma extending_ctx_var_def (c : addr) (name : string) (v : Value) (st : State) :
  extending st (ctx_var_def c name v st).
Proof.
  unfold ctx_var_def. destruct (heap st !! c) as [[| | | |vars parent]|] eqn:Hc; try exact I.
  cbn [extending]. eapply extends_store; [exact Hc|]. constructor.
  intros k [w Hk]. destruct (decide (name = k)) as [->|Hne].
  - rewrite lookup_insert_eq. eauto.
  - rewrite lookup_insert_ne by exact Hne. eauto.
Qed.

Lemma extending_ctx_assign (c : addr) (name : string) (v : Value) (st : State) :
  extending st (ctx_assign c name v st).
Proof.
  unfold ctx_assign. destruct (ctx_find _ _ c name) as [f|]; [|apply extends_refl].
  destruct (heap st !! f) as [[| | | |vars parent]|] eqn:Hf; try exact I.
  cbn [extending]. eapply extends_store; [exact Hf|]. constructor.
  intros k [w Hk]. destruct (decide (name = k)) as [->|Hne].
  - rewrite lookup_insert_eq. eauto.
  - rewrite lookup_insert_ne by exact Hne. eauto.
Qed.

Lemma extending_set_field (self : addr) (name : string) (v : Value) (st : State) :
  extending st (set_field self name v st).
Proof.
  unfold set_field. destruct (heap st !! self) as [[| | | |]|] eqn:Hs; try exact I.
  cbn [extending]. eapply extends_store; [exact Hs | constructor].
Qed.

Lemma extending_instance_getattr (self : addr) (name : string) (st : State) :
  extending st (LoxInstance_getattr self name st).
Proof.
  unfold LoxInstance_getattr.
  destruct (heap st !! self) as [[| | |klass fields|]|]; try exact I.
  destruct (fields !! name); [apply extends_refl|].
  match goal with
  | |- extending st (match ?m with _ => _ end) =>
      assert (Hm : extending st m); [|destruct m as [? ?|[] ?|?]; exact Hm]
  end.
  apply extending_bind; [apply extending_get_method|]. intros method st1.
  destruct (decide (name = "init")).
  - apply extending_bind; [apply extending_bind_method|]. intros bound st2.
    destruct (heap st2 !! bound) as [[| | | |]|]; try exact I.
    destruct (alloc _ st2) as [i st3] eqn:H3. cbn [extending].
    eapply extends_alloc; [exact H3 | discriminate].
  - apply extending_bind; [apply extending_bind_method|]. intros bound st2.
    apply extends_refl.
Qed.

Lemma extending_getattr (host : Host) (v : Value) (name : string) (st : State) :
  extending st (getattr host v name st).
Proof.
  unfold getattr, host_lookup.
  repeat case_match; try exact I; try apply extends_refl; apply extending_instance_getattr.
Qed.

Lemma extending_no_attribute (v : Value) (name : string) (st : State) :
  extending st (no_attribute v name st).
Proof. unfold no_attribute. case_match; [apply extends_refl | exact I]. Qed.

Lemma extends_make_methods (method_ctx : addr) (methods : list Function)
    (st st' : State) (md : gmap string addr) :
  make_methods method_ctx methods st = (md, st') -> extends st st'.
Proof.
  unfold make_methods.
  assert (H : forall acc : gmap string addr * State, extends acc.2
                (foldl (fun acc method =>
                          let '(a, s) := alloc (LoxFunction (fn_name method) (fn_params method)
                                                            (fn_body method) method_ctx) acc.2 in
                          (<[fn_name method := a]> acc.1, s)) acc methods).2).
  { induction methods as [|m ms IH]; intros acc; [apply extends_refl|].
    cbn [foldl]. eapply extends_trans; [|apply IH].
    destruct (alloc _ acc.2) as [a s] eqn:Ha. cbn [snd].
    eapply extends_alloc; [exact Ha | discriminate]. }
  intros Heq. specialize (H (∅, st)). rewrite Heq in H. exact H.
Qed.

Lemma extends_lookup (st st' : State) (a : addr) (o : Obj) :
  extends st st' -> heap st !! a = Some o -> (a < length (heap st'))%nat.
Proof.
  intros (_ & Hobj & _) Ha. destruct (Hobj a o Ha) as (o' & Ho' & _).
  eapply lookup_lt_Some, Ho'.
Qed.

(** Every evaluation that ends leaves a state that comes after the state
    it started from. *)
Lemma evaluation_extending (host : Host) (n : nat) :
  (forall e ctx st, extending st (eval_expr host n e ctx st)) /\
  (forall params ctx st, extending st (eval_params host n params ctx st)) /\
  (forall s ctx st, extending st (eval_stmt host n s ctx st)) /\
  (forall stmts ctx st, extending st (eval_stmts host n stmts ctx st)) /\
  (forall func args st, extending st (call host n func args st)) /\
  (forall name params body fctx args st,
     extending st (LoxFunction_call host n name params body fctx args st)).
Proof.
  induction n as [|n (IHe & IHp & IHs & IHl & IHc & IHf)]; [repeat split; intros; exact I|].
  repeat split.
  - intros e ctx st. destruct e; cbn [eval_expr].
    + apply extending_bind; [apply IHe|]. intros lv st1.
      apply extending_bind; [apply IHe|]. intros rv st2. apply extending_binop.
    + case_match; apply extends_refl.
    + apply extends_refl.
    + apply extending_bind; [apply IHe|]. intros lv st1.
      case_match; [apply extends_refl | apply IHe].
    + apply extending_bind; [apply IHe|]. intros lv st1.
      repeat case_match; try apply extends_refl; apply IHe.
    + apply extending_bind; [apply IHe|]. intros v st1. apply extending_unaryop.
    + apply extending_bind; [apply IHe|]. intros func st1.
      apply extending_bind; [apply IHp|]. intros args st2.
      unfold not_a_function. repeat case_match; try exact I; try apply extends_refl; apply IHc.
    + case_match; apply extends_refl.
    + repeat case_match; try exact I; try apply extends_refl.
      apply extending_bind; [apply extending_get_method|]. intros m st1.
      apply extending_bind; [apply extending_bind_method|]. intros b st2. apply extends_refl.
    + apply extending_bind; [apply IHe|]. intros r st1.
      apply extending_bind; [apply extending_ctx_assign|]. intros ? st2. apply extends_refl.
    + apply extending_bind; [apply IHe|]. intros v st1.
      pose proof (extending_getattr host v name st1) as Hg.
      destruct v as [| | | |c]; cbn [type_of].
      1-4: destruct (getattr host _ name st1) as [? ?|exn st2|?]; try exact Hg;
           destruct (is_AttributeError exn); [|exact Hg];
           eapply extending_weaken; [exact Hg | apply extending_no_attribute].
      destruct (type_of_obj <$> heap st1 !! c) as [t|]; [|exact I].
      assert (Hother :
        extending st1 (match getattr host (VObj c) name st1 with
                       | Raise exn st2 =>
                           if is_AttributeError exn then no_attribute (VObj c) name st2
                           else Raise exn st2
                       | r => r
                       end)).
      { destruct (getattr host _ name st1) as [? ?|exn st2|?]; try exact Hg.
        destruct (is_AttributeError exn); [|exact Hg].
        eapply extending_weaken; [exact Hg | apply extending_no_attribute]. }
      destruct t; try exact Hother.
      pose proof (extending_get_method c name st1) as Hm.
      destruct (get_method c name st1) as [? ?|? st2|?]; try exact Hm.
      eapply extending_weaken; [exact Hm | apply extending_no_attribute].
    + apply extending_bind; [apply IHe|]. intros ov st1.
      apply extending_bind; [apply IHe|]. intros v st2.
      repeat case_match; try exact I; try apply extends_refl.
      all: apply extending_bind;
        [first [apply extending_set_field
               | unfold py_setattr; case_match; apply extends_refl]|].
      all: intros ? st3; apply extends_refl.
  - intros params ctx st. destruct params; cbn [eval_params]; [apply extends_refl|].
    apply extending_bind; [apply IHe|]. intros v st1.
    apply extending_bind; [apply IHp|]. intros vs st2. apply extends_refl.
  - intros s ctx st.
    destruct s as [e|e|[e|]|name e|cond t f|cond b|stmts|[fname params body]|cname methods base];
      cbn [eval_stmt].
    + apply extending_bind; [apply IHe|]. intros ? st1. apply extends_refl.
    + apply extending_bind; [apply IHe|]. intros v st1. apply extending_print.
    + apply extending_bind; [apply IHe|]. intros v st1. apply extends_refl.
    + apply extends_refl.
    + apply extending_bind; [apply IHe|]. intros v st1. apply extending_ctx_var_def.
    + apply extending_bind; [apply IHe|]. intros v st1. case_match; apply IHs.
    + apply extending_bind; [apply IHe|]. intros v st1.
      case_match; [apply extends_refl|].
      apply extending_bind; [apply IHs|]. intros ? st2. apply IHs.
    + destruct (ctx_push ctx ∅ st) as [new_ctx st1] eqn:Hpush.
      eapply extending_weaken; [eapply extends_push, Hpush | apply IHl].
    + destruct (alloc _ st) as [function st1] eqn:Halloc.
      eapply extending_weaken; [eapply extends_alloc; [exact Halloc | discriminate]|].
      apply extending_ctx_var_def.
    + assert (Hdecl : forall superclass,
                (forall b, superclass = Some b -> is_Some (heap st !! b)) ->
                extending st
                  (let '(method_ctx, st2) :=
                     match superclass with
                     | None => (ctx, st)
                     | Some b => ctx_push ctx {["super" := VObj b]} st
                     end in
                   let '(methods_dict, st3) := make_methods method_ctx methods st2 in
                   let '(lox_class, st4) := alloc (LoxClass cname methods_dict superclass) st3 in
                   ctx_var_def ctx cname (VObj lox_class) st4)).
      { intros superclass Hsc.
        assert (H2 : exists method_ctx st2,
                   match superclass with
                   | None => (ctx, st)
                   | Some b => ctx_push ctx {["super" := VObj b]} st
                   end = (method_ctx, st2) /\ extends st st2).
        { destruct superclass as [b|].
          - destruct (ctx_push ctx {["super" := VObj b]} st) as [c st2] eqn:Hpush.
            exists c, st2. split; [reflexivity | eapply extends_push, Hpush].
          - exists ctx, st. split; [reflexivity | apply extends_refl]. }
        destruct H2 as (method_ctx & st2 & -> & H12).
        destruct (make_methods method_ctx methods st2) as [md st3] eqn:Hmk.
        pose proof (extends_make_methods _ _ _ _ _ Hmk) as H23.
        destruct (alloc _ st3) as [lox_class st4] eqn:Halloc.
        eapply extending_weaken; [|apply extending_ctx_var_def].
        eapply extends_trans; [exact H12|]. eapply extends_trans; [exact H23|].
        eapply extends_alloc; [exact Halloc|].
        intros ? ? b Hb. injection Hb as _ _ ->.
        destruct (Hsc b eq_refl) as [o Ho].
        apply (extends_lookup st st3 b o); [eapply extends_trans; [exact H12 | exact H23] | exact Ho]. }
      destruct base as [base_name|]; cbn [bind].
      * destruct (ctx_getitem (heap st) ctx base_name) as [bv|]; [|apply extends_refl].
        destruct bv as [| | | |b]; cbn [type_of bind]; try apply extends_refl.
        destruct (heap st !! b) as [o|] eqn:Hb; [|exact I].
        cbn [fmap option_fmap option_map].
        destruct (type_of_obj o); cbn [bind]; try apply extends_refl.
        refine (Hdecl (Some b) _). intros b' E. injection E as <-. eauto.
      * refine (Hdecl None _). discriminate.
  - intros stmts ctx st. destruct stmts; cbn [eval_stmts]; [apply extends_refl|].
    apply extending_bind; [apply IHs|]. intros ? st1. apply IHl.
  - intros func args st. cbn [call]. destruct func; try exact I.
    destruct (heap st !! a) as [[| | | |]|]; try exact I.
    + apply IHf.
    + apply extending_bind; [apply IHf|]. intros ? st1. apply extends_refl.
    + destruct (alloc (LoxInstance a ∅) st) as [instance st1] eqn:Halloc.
      eapply extending_weaken; [eapply extends_alloc; [exact Halloc | discriminate]|].
      match goal with
      | |- extending st1 (match ?m with _ => _ end) =>
          assert (Hm : extending st1 m); [|destruct m as [? ?|[] ?|?]; try exact Hm]
      end.
      * apply extending_bind; [apply extending_get_method|]. intros i st2.
        apply extending_bind; [apply extending_bind_method|]. intros b st3. apply IHc.
      * case_match; exact Hm.
  - intros name params body fctx args st. cbn [LoxFunction_call].
    case_match; [apply extends_refl|].
    match goal with
    | |- extending st (let '(_, _) := ?p in _) =>
        assert (Hp : exists c st1, p = (c, st1) /\ extends st st1)
    end.
    { case_match.
      - destruct (ctx_push fctx _ st) as [c st1] eqn:Hpush. exists c, st1.
        split; [reflexivity | eapply extends_push, Hpush].
      - destruct (ctx_push fctx _ st) as [c st1] eqn:Hpush. exists c, st1.
        split; [reflexivity | eapply extends_push, Hpush]. }
    destruct Hp as (c & st1 & -> & H1).
    eapply extending_weaken; [exact H1|].
    pose proof (IHs (Block body) c st1) as Hb.
    destruct (eval_stmt host n (Block body) c st1) as [? ?|[] ?|?]; exact Hb.
Qed.

(** X19.  Every evaluation that ends with a value or with an error, the
    program never having got hold of a Python object that is no Lox value
    (as [Getattr] gives for [f.params], [f.body], [f.ctx] or the [fields]
    of an instance, where the embedding stops), leaves a state that comes
    after the state before: what was printed is still there, in front of
    what was printed since; no object has gone; functions and classes are
    as they were created (the captured context of a function is never
    replaced, nor the methods or the base of a class); an instance is still
    an instance of the same class, only its fields may differ; a frame has
    the same parent and still defines every variable it defined; and every
    base is still older than the class that extends it. *)
Theorem evaluation_extends (host : Host) (n : nat) (st st' : State) :
  (forall e ctx, ends_in (eval_expr host n e ctx st) st' -> extends st st') /\
  (forall s ctx, ends_in (eval_stmt host n s ctx st) st' -> extends st st') /\
  (forall func args, ends_in (call host n func args st) st' -> extends st st') /\
  (forall program ctx, ends_in (eval_program host n program ctx st) st' -> extends st st').
Proof.
  destruct (evaluation_extending host n) as (He & _ & Hs & Hl & Hc & _).
  split; [|split; [|split]].
  - intros e ctx H. specialize (He e ctx st).
    destruct (eval_expr host n e ctx st); cbn in H; try contradiction; now subst.
  - intros s ctx H. specialize (Hs s ctx st).
    destruct (eval_stmt host n s ctx st); cbn in H; try contradiction; now subst.
  - intros func args H. specialize (Hc func args st).
    destruct (call host n func args st); cbn in H; try contradiction; now subst.
  - intros program ctx H. specialize (Hl program ctx st). unfold eval_program in H.
    destruct (eval_stmts host n program ctx st); cbn in H; try contradiction; now subst.
Qed.

(** [class A {}], [var a = A();], [a.x = 1;] and [print a.x;] *)
Lemma evaluation_extends_witness :
  exists st',
    eval_program bare_host 20
      [Class "A" [] None;
       VarDef "a" (Call (Var "A") []);
       ExprStmt (Setattr (Var "a") "x" (number 1));
       Print (Getattr (Var "a") "x")] global_ctx init_state = Ok tt st' /\
    stdout st' = ["1"] /\
    extends init_state st'.
Proof.
  eexists. split; [vm_compute; reflexivity|]. split; [reflexivity|].
  apply (proj2 (proj2 (proj2 (evaluation_extends bare_host 20 init_state _)))
           [Class "A" [] None;
            VarDef "a" (Call (Var "A") []);
            ExprStmt (Setattr (Var "a") "x" (number 1));
            Print (Getattr (Var "a") "x")] global_ctx).
  vm_compute. reflexivity.
Defined.

(** ** Lexical scope *)

Lemma same_names_refl (x : option addr) (st : State) : same_names x st st.
Proof. intros a vars parent _ Ha. exists vars. split; [exact Ha | reflexivity]. Qed.

Lemma same_names_trans (x : option addr) (st1 st2 st3 : State) :
  same_names x st1 st2 -> same_names x st2 st3 -> same_names x st1 st3.
Proof.
  intros H12 H23 a vars parent Hx Ha.
  destruct (H12 a vars parent Hx Ha) as (vars' & Ha' & Hk).
  destruct (H23 a vars' parent Hx Ha') as (vars'' & Ha'' & Hk').
  exists vars''. split; [exact Ha''|]. intros k. rewrite Hk'. apply Hk.
Qed.

Lemma same_names_weaken (x : option addr) (st st' : State) :
  same_names None st st' -> same_names x st st'.
Proof. intros H a vars parent _ Ha. apply H; [discriminate | exact Ha]. Qed.

Lemma same_names_alloc (o : Obj) (st st1 : State) (a : addr) :
  alloc o st = (a, st1) -> same_names None st st1.
Proof.
  intros Halloc. injection Halloc as <- <-. intros a vars parent _ Ha.
  exists vars. split; [now apply snoc_old | reflexivity].
Qed.

Lemma same_names_fresh (o : Obj) (st st1 st' : State) (c : addr) :
  alloc o st = (c, st1) -> same_names (Some c) st1 st' -> same_names None st st'.
Proof.
  intros Halloc H a vars parent _ Ha.
  pose proof (lookup_lt_Some _ _ _ Ha) as Hlt.
  injection Halloc as <- <-. apply H.
  - intros E. injection E as E. lia.
  - now apply snoc_old.
Qed.

Lemma same_names_store (x : option addr) (a : addr) (o o' : Obj) (st : State) :
  heap st !! a = Some o ->
  (forall vars parent, Some a <> x -> o = Ctx vars parent ->
     exists vars', o' = Ctx vars' parent /\
                   forall k, is_Some (vars' !! k) <-> is_Some (vars !! k)) ->
  same_names x st (store a o' st).
Proof.
  intros Ha Ho c vars parent Hx Hc. pose proof (lookup_lt_Some _ _ _ Ha) as Hlt.
  cbn [store heap set_heap]. destruct (decide (c = a)) as [E|Hne].
  - subst c. rewrite list_lookup_insert_eq by exact Hlt.
    pose proof (eq_trans (eq_sym Hc) Ha) as E. injection E as <-.
    destruct (Ho vars parent Hx eq_refl) as (vars' & -> & Hk). eauto.
  - rewrite list_lookup_insert_ne by congruence. exists vars. split; [exact Hc | reflexivity].
Qed.

Lemma keeps_names_bind {A B : Type} (x : option addr) (st : State) (m : Res A)
    (k : A -> State -> Res B) :
  keeps_names x st m -> (forall a st1, keeps_names x st1 (k a st1)) ->
  keeps_names x st (bind m k).
Proof.
  destruct m as [a st1|e st1|w]; cbn [bind keeps_names]; [|auto..].
  intros H1 Hk. specialize (Hk a st1).
  destruct (k a st1); cbn [keeps_names] in *; [| |exact I]; eapply same_names_trans; eassumption.
Qed.

Lemma keeps_names_after {A : Type} (x : option addr) (st st1 : State) (r : Res A) :
  same_names x st st1 -> keeps_names x st1 r -> keeps_names x st r.
Proof.
  intros H. destruct r; cbn [keeps_names]; [| |auto]; apply same_names_trans; exact H.
Qed.

Lemma keeps_names_weaken {A : Type} (x : option addr) (st : State) (r : Res A) :
  keeps_names None st r -> keeps_names x st r.
Proof. destruct r; cbn [keeps_names]; [| |auto]; apply same_names_weaken. Qed.

Lemma keeps_names_fresh {A : Type} (o : Obj) (st st1 : State) (c : addr) (r : Res A) :
  alloc o st = (c, st1) -> keeps_names (Some c) st1 r -> keeps_names None st r.
Proof.
  intros Halloc. destruct r; cbn [keeps_names]; [| |auto]; eapply same_names_fresh, Halloc.
Qed.

Lemma keeps_names_print (v : Value) (st : State) : keeps_names None st (lox_print v st).
Proof.
  unfold lox_print. destruct (show (heap st) v); [|exact I].
  intros a vars parent _ Ha. exists vars. split; [exact Ha | reflexivity].
Qed.

Lemma keeps_names_binop (host : Host) (n : nat) (op : BinOperator) (a b : Value) (st : State) :
  keeps_names None st (call_binop host n op a b st).
Proof.
  destruct op, a, b; cbn; try apply same_names_refl; repeat case_match;
    try exact I; apply same_names_refl.
Qed.

Lemma keeps_names_unaryop (op : UnaryOperator) (v : Value) (st : State) :
  keeps_names None st (call_unaryop op v st).
Proof. destruct op, v; apply same_names_refl. Qed.

Lemma keeps_names_get_method (c : addr) (name : string) (st : State) :
  keeps_names None st (get_method c name st).
Proof. unfold get_method. repeat case_match; try exact I; apply same_names_refl. Qed.

Lemma keeps_names_bind_method (f : addr) (obj : Value) (st : State) :
  keeps_names None st (LoxFunction_bind f obj st).
Proof.
  unfold LoxFunction_bind.
  destruct (heap st !! f) as [[| | | |]|]; try exact I.
  all: destruct (ctx_push _ _ st) as [c st1] eqn:H1.
  all: destruct (alloc _ st1) as [b st2] eqn:H2.
  all: cbn [keeps_names]; eapply same_names_trans;
    [eapply same_names_alloc, H1 | eapply same_names_alloc, H2].
Qed.

Lemma keeps_names_ctx_var_def (c : addr) (name : string) (v : Value) (st : State) :
  keeps_names (Some c) st (ctx_var_def c name v st).
Proof.
  unfold ctx_var_def. destruct (heap st !! c) as [[| | | |vars parent]|] eqn:Hc; try exact I.
  cbn [keeps_names]. eapply same_names_store; [exact Hc|]. intros ? ? Hx. now destruct Hx.
Qed.

Lemma ctx_find_defines (n : nat) (h : list Obj) (c : addr) (name : string) (f : addr)
    (vars : gmap string Value) (parent : option addr) :
  ctx_find n h c name = Some f -> h !! f = Some (Ctx vars parent) ->
  is_Some (vars !! name).
Proof.
  revert c. induction n as [|n IH]; intros c; cbn [ctx_find]; [discriminate|].
  destruct (h !! c) as [[| | | |vars0 parent0]|] eqn:Hc; try discriminate.
  destruct (vars0 !! name) as [w|] eqn:Hn.
  - intros E Hf. injection E as <-.
    pose proof (eq_trans (eq_sym Hc) Hf) as E. injection E as -> ->. eauto.
  - destruct parent0 as [p|]; [apply IH | discriminate].
Qed.

Lemma keeps_names_ctx_assign (c : addr) (name : string) (v : Value) (st : State) :
  keeps_names None st (ctx_assign c name v st).
Proof.
  unfold ctx_assign. destruct (ctx_find _ _ c name) as [f|] eqn:Hfind; [|apply same_names_refl].
  destruct (heap st !! f) as [[| | | |vars parent]|] eqn:Hf; try exact I.
  cbn [keeps_names]. eapply same_names_store; [exact Hf|].
  intros vars0 parent0 _ E. injection E as <- <-. eexists. split; [reflexivity|].
  pose proof (ctx_find_defines _ _ _ _ _ _ _ Hfind Hf) as Hdef.
  intros k. destruct (decide (name = k)) as [->|Hne].
  - rewrite lookup_insert_eq. split; eauto.
  - rewrite lookup_insert_ne by exact Hne. reflexivity.
Qed.

Lemma keeps_names_set_field (self : addr) (name : string) (v : Value) (st : State) :
  keeps_names None st (set_field self name v st).
Proof.
  unfold set_field. destruct (heap st !! self) as [[| | | |]|] eqn:Hs; try exact I.
  cbn [keeps_names]. eapply same_names_store; [exact Hs | discriminate].
Qed.

Lemma keeps_names_instance_getattr (self : addr) (name : string) (st : State) :
  keeps_names None st (LoxInstance_getattr self name st).
Proof.
  unfold LoxInstance_getattr.
  destruct (heap st !! self) as [[| | |klass fields|]|]; try exact I.
  destruct (fields !! name); [apply same_names_refl|].
  match goal with
  | |- keeps_names None st (match ?m with _ => _ end) =>
      assert (Hm : keeps_names None st m); [|destruct m as [? ?|[] ?|?]; exact Hm]
  end.
  apply keeps_names_bind; [apply keeps_names_get_method|]. intros method st1.
  destruct (decide (name = "init")).
  - apply keeps_names_bind; [apply keeps_names_bind_method|]. intros bound st2.
    destruct (heap st2 !! bound) as [[| | | |]|]; try exact I.
    destruct (alloc _ st2) as [i st3] eqn:H3. cbn [keeps_names].
    eapply same_names_alloc, H3.
  - apply keeps_names_bind; [apply keeps_names_bind_method|]. intros bound st2.
    apply same_names_refl.
Qed.

Lemma keeps_names_getattr (host : Host) (v : Value) (name : string) (st : State) :
  keeps_names None st (getattr host v name st).
Proof.
  unfold getattr, host_lookup.
  repeat case_match; try exact I; try apply same_names_refl; apply keeps_names_instance_getattr.
Qed.

Lemma keeps_names_no_attribute (v : Value) (name : string) (st : State) :
  keeps_names None st (no_attribute v name st).
Proof. unfold no_attribute. case_match; [apply same_names_refl | exact I]. Qed.

Lemma same_names_make_methods (method_ctx : addr) (methods : list Function)
    (st st' : State) (md : gmap string addr) :
  make_methods method_ctx methods st = (md, st') -> same_names None st st'.
Proof.
  unfold make_methods.
  assert (H : forall acc : gmap string addr * State, same_names None acc.2
                (foldl (fun acc method =>
                          let '(a, s) := alloc (LoxFunction (fn_name method) (fn_params method)
                                                            (fn_body method) method_ctx) acc.2 in
                          (<[fn_name method := a]> acc.1, s)) acc methods).2).
  { induction methods as [|m ms IH]; intros acc; [apply same_names_refl|].
    cbn [foldl]. eapply same_names_trans; [|apply IH].
    destruct (alloc _ acc.2) as [a s] eqn:Ha. cbn [snd].
    eapply same_names_alloc, Ha. }
  intros Heq. specialize (H (∅, st)). rewrite Heq in H. exact H.
Qed.

(** In every evaluation that ends, a statement adds names to its own frame
    only; an expression, a block and a call add none to the frames that
    exist. *)
Lemma evaluation_keeps_names (host : Host) (n : nat) :
  (forall e ctx st, keeps_names None st (eval_expr host n e ctx st)) /\
  (forall params ctx st, keeps_names None st (eval_params host n params ctx st)) /\
  (forall s ctx st, keeps_names (Some ctx) st (eval_stmt host n s ctx st)) /\
  (forall stmts ctx st, keeps_names (Some ctx) st (eval_stmts host n stmts ctx st)) /\
  (forall stmts ctx st, keeps_names None st (eval_stmt host n (Block stmts) ctx st)) /\
  (forall func args st, keeps_names None st (call host n func args st)) /\
  (forall name params body fctx args st,
     keeps_names None st (LoxFunction_call host n name params body fctx args st)).
Proof.
  induction n as [|n (IHe & IHp & IHs & IHl & IHb & IHc & IHf)];
    [repeat split; intros; exact I|].
  assert (Hblock : forall stmts ctx st,
             keeps_names None st (eval_stmt host (S n) (Block stmts) ctx st)).
  { intros stmts ctx st. cbn [eval_stmt].
    destruct (ctx_push ctx ∅ st) as [new_ctx st1] eqn:Hpush.
    eapply keeps_names_fresh; [exact Hpush | apply IHl]. }
  repeat split.
  - intros e ctx st. destruct e; cbn [eval_expr].
    + apply keeps_names_bind; [apply IHe|]. intros lv st1.
      apply keeps_names_bind; [apply IHe|]. intros rv st2. apply keeps_names_binop.
    + case_match; apply same_names_refl.
    + apply same_names_refl.
    + apply keeps_names_bind; [apply IHe|]. intros lv st1.
      case_match; [apply same_names_refl | apply IHe].
    + apply keeps_names_bind; [apply IHe|]. intros lv st1.
      repeat case_match; try apply same_names_refl; apply IHe.
    + apply keeps_names_bind; [apply IHe|]. intros v st1. apply keeps_names_unaryop.
    + apply keeps_names_bind; [apply IHe|]. intros func st1.
      apply keeps_names_bind; [apply IHp|]. intros args st2.
      unfold not_a_function. repeat case_match; try exact I; try apply same_names_refl; apply IHc.
    + case_match; apply same_names_refl.
    + repeat case_match; try exact I; try apply same_names_refl.
      apply keeps_names_bind; [apply keeps_names_get_method|]. intros m st1.
      apply keeps_names_bind; [apply keeps_names_bind_method|]. intros b st2.
      apply same_names_refl.
    + apply keeps_names_bind; [apply IHe|]. intros r st1.
      apply keeps_names_bind; [apply keeps_names_ctx_assign|]. intros ? st2.
      apply same_names_refl.
    + apply keeps_names_bind; [apply IHe|]. intros v st1.
      pose proof (keeps_names_getattr host v name st1) as Hg.
      destruct v as [| | | |c]; cbn [type_of].
      1-4: destruct (getattr host _ name st1) as [? ?|exn st2|?]; try exact Hg;
           destruct (is_AttributeError exn); [|exact Hg];
           eapply keeps_names_after; [exact Hg | apply keeps_names_no_attribute].
      destruct (type_of_obj <$> heap st1 !! c) as [t|]; [|exact I].
      assert (Hother :
        keeps_names None st1
                    (match getattr host (VObj c) name st1 with
                     | Raise exn st2 =>
                         if is_AttributeError exn then no_attribute (VObj c) name st2
                         else Raise exn st2
                     | r => r
                     end)).
      { destruct (getattr host _ name st1) as [? ?|exn st2|?]; try exact Hg.
        destruct (is_AttributeError exn); [|exact Hg].
        eapply keeps_names_after; [exact Hg | apply keeps_names_no_attribute]. }
      destruct t; try exact Hother.
      pose proof (keeps_names_get_method c name st1) as Hm.
      destruct (get_method c name st1) as [? ?|? st2|?]; try exact Hm.
      eapply keeps_names_after; [exact Hm | apply keeps_names_no_attribute].
    + apply keeps_names_bind; [apply IHe|]. intros ov st1.
      apply keeps_names_bind; [apply IHe|]. intros v st2.
      repeat case_match; try exact I; try apply same_names_refl.
      all: apply keeps_names_bind;
        [first [apply keeps_names_set_field
               | unfold py_setattr; case_match; apply same_names_refl]|].
      all: intros ? st3; apply same_names_refl.
  - intros params ctx st. destruct params; cbn [eval_params]; [apply same_names_refl|].
    apply keeps_names_bind; [apply IHe|]. intros v st1.
    apply keeps_names_bind; [apply IHp|]. intros vs st2. apply same_names_refl.
  - intros s ctx st.
    destruct s as [e|e|[e|]|name e|cond t f|cond b|stmts|[fname params body]|cname methods base].
    8: apply keeps_names_weaken, Hblock.
    all: cbn [eval_stmt].
    + apply keeps_names_bind; [apply keeps_names_weaken, IHe|]. intros ? st1.
      apply same_names_refl.
    + apply keeps_names_bind; [apply keeps_names_weaken, IHe|]. intros v st1.
      apply keeps_names_weaken, keeps_names_print.
    + apply keeps_names_bind; [apply keeps_names_weaken, IHe|]. intros v st1.
      apply same_names_refl.
    + apply same_names_refl.
    + apply keeps_names_bind; [apply keeps_names_weaken, IHe|]. intros v st1.
      apply keeps_names_ctx_var_def.
    + apply keeps_names_bind; [apply keeps_names_weaken, IHe|]. intros v st1.
      case_match; apply IHs.
    + apply keeps_names_bind; [apply keeps_names_weaken, IHe|]. intros v st1.
      case_match; [apply same_names_refl|].
      apply keeps_names_bind; [apply IHs|]. intros ? st2. apply IHs.
    + destruct (alloc _ st) as [function st1] eqn:Halloc.
      eapply keeps_names_after; [eapply same_names_weaken, same_names_alloc, Halloc|].
      apply keeps_names_ctx_var_def.
    + assert (Hdecl : forall superclass,
                keeps_names (Some ctx) st
                  (let '(method_ctx, st2) :=
                     match superclass with
                     | None => (ctx, st)
                     | Some b => ctx_push ctx {["super" := VObj b]} st
                     end in
                   let '(methods_dict, st3) := make_methods method_ctx methods st2 in
                   let '(lox_class, st4) := alloc (LoxClass cname methods_dict superclass) st3 in
                   ctx_var_def ctx cname (VObj lox_class) st4)).
      { intros superclass.
        assert (H2 : exists method_ctx st2,
                   match superclass with
                   | None => (ctx, st)
                   | Some b => ctx_push ctx {["super" := VObj b]} st
                   end = (method_ctx, st2) /\ same_names None st st2).
        { destruct superclass as [b|].
          - destruct (ctx_push ctx {["super" := VObj b]} st) as [c st2] eqn:Hpush.
            exists c, st2. split; [reflexivity | eapply same_names_alloc, Hpush].
          - exists ctx, st. split; [reflexivity | apply same_names_refl]. }
        destruct H2 as (method_ctx & st2 & -> & H12).
        destruct (make_methods method_ctx methods st2) as [md st3] eqn:Hmk.
        pose proof (same_names_make_methods _ _ _ _ _ Hmk) as H23.
        destruct (alloc _ st3) as [lox_class st4] eqn:Halloc.
        eapply keeps_names_after; [|apply keeps_names_ctx_var_def].
        apply same_names_weaken.
        eapply same_names_trans; [exact H12|]. eapply same_names_trans; [exact H23|].
        eapply same_names_alloc, Halloc. }
      destruct base as [base_name|]; cbn [bind].
      * destruct (ctx_getitem (heap st) ctx base_name) as [bv|]; [|apply same_names_refl].
        destruct bv as [| | | |b]; cbn [type_of bind]; try apply same_names_refl.
        destruct (heap st !! b) as [o|] eqn:Hb; [|exact I].
        cbn [fmap option_fmap option_map].
        destruct (type_of_obj o); cbn [bind]; try apply same_names_refl.
        exact (Hdecl (Some b)).
      * exact (Hdecl None).
  - intros stmts ctx st. destruct stmts; cbn [eval_stmts]; [apply same_names_refl|].
    apply keeps_names_bind; [apply IHs|]. intros ? st1. apply IHl.
  - exact Hblock.
  - intros func args st. cbn [call]. destruct func; try exact I.
    destruct (heap st !! a) as [[| | | |]|]; try exact I.
    + apply IHf.
    + apply keeps_names_bind; [apply IHf|]. intros ? st1. apply same_names_refl.
    + destruct (alloc (LoxInstance a ∅) st) as [instance st1] eqn:Halloc.
      eapply keeps_names_after; [eapply same_names_alloc, Halloc|].
      match goal with
      | |- keeps_names None st1 (match ?m with _ => _ end) =>
          assert (Hm : keeps_names None st1 m); [|destruct m as [? ?|[] ?|?]; try exact Hm]
      end.
      * apply keeps_names_bind; [apply keeps_names_get_method|]. intros i st2.
        apply keeps_names_bind; [apply keeps_names_bind_method|]. intros b st3. apply IHc.
      * case_match; exact Hm.
  - intros name params body fctx args st. cbn [LoxFunction_call].
    case_match; [apply same_names_refl|].
    match goal with
    | |- keeps_names None st (let '(_, _) := ?p in _) =>
        assert (Hp : exists o, p = alloc o st)
    end.
    { case_match; eexists; reflexivity. }
    destruct Hp as (o & ->).
    destruct (alloc o st) as [c st1] eqn:Halloc.
    pose proof (IHb body c st1) as Hb.
    eapply keeps_names_after; [eapply same_names_alloc, Halloc|].
    destruct (eval_stmt host n (Block body) c st1) as [? ?|[] ?|?]; exact Hb.
Qed.

(** X20.  Scope is lexical in every evaluation that ends with a value or
    with an error, the program never having got hold of a Python object
    that is no Lox value (as [Getattr] gives for [f.ctx], where the
    embedding stops).  A statement declares names in the frame it is
    evaluated in and in no other: every other frame that exists when it
    starts has, when it ends, exactly the names it had, and the same
    parent.  An expression, a block and a call leave the names of every
    existing frame as they are, the frame of the block or of the caller
    included: what a block or the body of a function declares goes to a
    frame made for that evaluation. *)
Theorem scope_is_lexical (host : Host) (n : nat) (st st' : State) :
  (forall e ctx, ends_in (eval_expr host n e ctx st) st' -> same_names None st st') /\
  (forall s ctx, ends_in (eval_stmt host n s ctx st) st' -> same_names (Some ctx) st st') /\
  (forall stmts ctx,
     ends_in (eval_stmt host n (Block stmts) ctx st) st' -> same_names None st st') /\
  (forall func args, ends_in (call host n func args st) st' -> same_names None st st').
Proof.
  destruct (evaluation_keeps_names host n) as (He & _ & Hs & _ & Hb & Hc & _).
  split; [|split; [|split]].
  - intros e ctx H. specialize (He e ctx st).
    destruct (eval_expr host n e ctx st); cbn in H; try contradiction; now subst.
  - intros s ctx H. specialize (Hs s ctx st).
    destruct (eval_stmt host n s ctx st); cbn in H; try contradiction; now subst.
  - intros stmts ctx H. specialize (Hb stmts ctx st).
    destruct (eval_stmt host n (Block stmts) ctx st); cbn in H; try contradiction; now subst.
  - intros func args H. specialize (Hc func args st).
    destruct (call host n func args st); cbn in H; try contradiction; now subst.
Qed.

(** [var x = 1;] then the block [{ var y = 2; x = 3; }]: the global frame
    still defines [x] and nothing else. *)
Lemma scope_is_lexical_witness :
  exists st st',
    eval_program bare_host 20 [VarDef "x" (number 1)] global_ctx init_state = Ok tt st /\
    eval_stmt bare_host 20
      (Block [VarDef "y" (number 2); ExprStmt (Assign "x" (number 3))]) global_ctx st
    = Ok tt st' /\
    same_names None st st'.
Proof.
  eexists _, _. split; [vm_compute; reflexivity|]. split; [vm_compute; reflexivity|].
  apply (proj1 (proj2 (proj2 (scope_is_lexical bare_host 20 _ _)))
           [VarDef "y" (number 2); ExprStmt (Assign "x" (number 3))] global_ctx).
  vm_compute. reflexivity.
Defined.
